(** * llm-agent-loop: the [agentLoop] control loop of [src/index.ts]

    The repository is one asynchronous function, [agentLoop], which drives
    three caller-supplied callbacks ([llmCaller], [stopCondition] and the
    optional [updateContext]) until the stop condition holds or the
    iteration bound [maxLoops] is reached.

    The embedding is a state-passing one.  A callback is a function of the
    [World] (everything a JavaScript closure can read and write: its own
    captured variables, the heap behind a context object, the network) that
    yields the way its promise settles together with the new world.  The
    loop threads the world through the callbacks in program order and
    records every invocation, so that statements about how often and with
    which arguments a callback was invoked are statements about the
    recorded list of calls. *)

From Stdlib Require Import ZArith QArith String List Bool Lia.
Import ListNotations.

Set Implicit Arguments.

(** ** JavaScript numbers, as far as the loop observes them

    [maxLoops] has the TypeScript type [number]: an IEEE double, which is
    NaN, one of the two infinities, or a finite value.  Every finite double
    is a rational, so finite values are carried as [Q] (the representation
    is not canonical; only comparisons are ever made).

    The loop counter [iterations] is a double too.  It starts at [0] and
    is only ever incremented by one, so its values are integers and it is
    carried as a [Z], with the rounding of [iterations++] written out in
    [increment] below. *)

Inductive number : Type :=
| NaN
| Infinity
| NegInfinity
| Finite (q : Q).

Definition number_of_Z (z : Z) : number := Finite (inject_Z z).

(** [n < m] where [n] is an integer and [m] a double: comparisons with NaN
    are false. *)
Definition number_lt (n : Z) (m : number) : bool :=
  match m with
  | NaN => false
  | Infinity => true
  | NegInfinity => false
  | Finite q => negb (Qle_bool q (inject_Z n))
  end.

(** [n <= m], likewise. *)
Definition number_le (n : Z) (m : number) : bool :=
  match m with
  | NaN => false
  | Infinity => true
  | NegInfinity => false
  | Finite q => Qle_bool (inject_Z n) q
  end.

(** [m] is the integer [z]. *)
Definition number_is_Z (m : number) (z : Z) : Prop :=
  match m with
  | Finite q => q == inject_Z z
  | _ => False
  end.

(** [m < 0]. *)
Definition number_negative (m : number) : Prop :=
  match m with
  | Finite q => q < 0
  | NegInfinity => True
  | _ => False
  end.

(** [iterations++], line 79.  Adding one to an integer double is exact as
    long as the sum is below [2^53].  At [2^53] it is not: [2^53 + 1] is
    not a double, and it is rounded (to nearest, ties to even) back to
    [2^53].  The counter, which starts at [0], therefore counts up to
    [2^53] and stays there. *)
Definition counter_limit : Z := 9007199254740992.

Definition increment (n : Z) : Z :=
  if (n <? counter_limit)%Z then (n + 1)%Z else n.

(** The counter after [passes] increments, from [n] and from [0]. *)
Definition counter_after (n passes : Z) : Z :=
  Z.min (n + passes) (Z.max n counter_limit).

Definition counted (passes : Z) : Z := Z.min passes counter_limit.

Section Model.

(** The two type parameters of [agentLoop]. *)
Context {TResponse TContext : Type}.
(** The values a callback may throw, or reject its promise with. *)
Context {Thrown : Type}.
(** The state the callbacks close over. *)
Context {World : Type}.

(** How an awaited value settles.  [Pending] stands for a promise that
    never settles: the [await] on it never resumes. *)
Inductive settled (A : Type) : Type :=
| Fulfilled (a : A)
| Rejected (e : Thrown)
| Pending.
Arguments Rejected {A} e.
Arguments Pending {A}.

(** A callback invocation followed by the [await] of its result. *)
Definition Async (A : Type) : Type := World -> settled A * World.

(** [interface AgentLoopOptions<TResponse, TContext>] *)
Record AgentLoopOptions : Type := {
  llmCaller : TContext -> Async TResponse;
  stopCondition : TResponse -> TContext -> Async bool;
  maxLoops : option number;
  updateContext : option (TResponse -> TContext -> Async TContext);
  initialContext : TContext
}.

(** ['stop_condition' | 'max_loops'] *)
Inductive Reason : Type := stop_condition | max_loops.

(** [interface AgentLoopResult<TResponse, TContext>].  [lastResponse] is
    the variable of line 75, of type [TResponse | undefined]: it is [None]
    as long as nothing was assigned to it, and its value is [undefined]
    then.  The union is not tagged: when [undefined] is itself a value of
    [TResponse], the variable is [undefined] as well after a response that
    is [undefined] was assigned to it; see [is_undefined] below. *)
Record AgentLoopResult : Type := {
  finalContext : TContext;
  lastResponse : option TResponse;
  reason : Reason;
  iterations : Z
}.

(** One recorded callback invocation: the arguments it received and the
    way it settled. *)
Inductive call : Type :=
| call_llmCaller (context : TContext) (s : settled TResponse)
| call_stopCondition (response : TResponse) (context : TContext)
                     (s : settled bool)
| call_updateContext (response : TResponse) (context : TContext)
                     (s : settled TContext).

(** How (a part of) the asynchronous function completes: it returns, it
    throws, it is suspended for ever on a pending [await], or the model
    ran out of [fuel] before the loop was over. *)
Inductive completion (A : Type) : Type :=
| Returned (a : A)
| Threw (e : Thrown)
| Hung
| OutOfFuel.
Arguments Threw {A} e.
Arguments Hung {A}.
Arguments OutOfFuel {A}.

Record run (A : Type) : Type := {
  outcome : completion A;
  world : World;
  calls : list call
}.

Definition Exec (A : Type) : Type := World -> run A.

Definition ret {A} (a : A) : Exec A :=
  fun w => {| outcome := Returned a; world := w; calls := [] |}.

Definition out_of_fuel {A} : Exec A :=
  fun w => {| outcome := OutOfFuel; world := w; calls := [] |}.

(** [prepend cs r]: the run [r] after the calls [cs] were made. *)
Definition prepend {A} (cs : list call) (r : run A) : run A :=
  {| outcome := outcome r; world := world r; calls := cs ++ calls r |}.

Definition bind {A B} (m : Exec A) (k : A -> Exec B) : Exec B :=
  fun w =>
    let r := m w in
    match outcome r with
    | Returned a => prepend (calls r) (k a (world r))
    | Threw e => {| outcome := Threw e; world := world r; calls := calls r |}
    | Hung => {| outcome := Hung; world := world r; calls := calls r |}
    | OutOfFuel =>
        {| outcome := OutOfFuel; world := world r; calls := calls r |}
    end.

Definition completion_of {A} (s : settled A) : completion A :=
  match s with
  | Fulfilled a => Returned a
  | Rejected e => Threw e
  | Pending => Hung
  end.

(** [await f(...)]: invoke the callback, record the call, and resume with
    the fulfilled value; a rejection (or an exception thrown by the call
    itself) is thrown at the [await].  Whatever else runs while the function
    is suspended is part of the effect of the call on the world. *)
Definition await {A} (record : settled A -> call) (f : Async A) : Exec A :=
  fun w =>
    let (s, w') := f w in
    {| outcome := completion_of s; world := w'; calls := [record s] |}.

(** The awaited call did not fulfil, and what the function does then. *)
Definition unfulfilled {A} (s : settled A) : bool :=
  match s with Fulfilled _ => false | _ => true end.

Definition abort {A B} (s : settled A) : completion B :=
  match s with Rejected e => Threw e | _ => Hung end.

Notation "x <- m ;; k" := (bind m (fun x => k))
  (at level 61, m at next level, right associativity).

Section Loop.

(** The destructured options of line 72. *)
Variable llmCaller' : TContext -> Async TResponse.
Variable stopCondition' : TResponse -> TContext -> Async bool.
Variable maxLoops' : number.
Variable updateContext' : option (TResponse -> TContext -> Async TContext).

(** The [while] loop of lines 78-97 followed by the [return] of lines
    99-104, started with the given values of the three [let] variables.
    Each execution of the body uses one unit of [fuel]. *)
Fixpoint loop (fuel : nat) (currentContext : TContext)
         (lastResponse' : option TResponse) (iterations' : Z)
  : Exec AgentLoopResult :=
  if number_lt iterations' maxLoops' then
    match fuel with
    | O => out_of_fuel
    | S fuel' =>
        let iterations' := increment iterations' in
        response <- await (call_llmCaller currentContext)
                          (llmCaller' currentContext) ;;
        let lastResponse' := Some response in
        shouldStop <- await (call_stopCondition response currentContext)
                            (stopCondition' response currentContext) ;;
        if (shouldStop : bool) then
          ret {| finalContext := currentContext;
                 lastResponse := lastResponse';
                 reason := stop_condition;
                 iterations := iterations' |}
        else
          currentContext' <-
            match updateContext' with
            | Some f =>
                await (call_updateContext response currentContext)
                      (f response currentContext)
            | None => ret currentContext
            end ;;
          loop fuel' currentContext' lastResponse' iterations'
    end
  else
    ret {| finalContext := currentContext;
           lastResponse := lastResponse';
           reason := max_loops;
           iterations := iterations' |}.

(** [nonstop n context last w]: the loop variables and the world after
    [n] complete executions of the loop body, started from [context],
    [last] and [w], in each of which every callback invoked fulfilled
    and [stopCondition] answered [false]; [None] when one of these [n]
    passes stops, throws or hangs. *)
Fixpoint nonstop (n : nat) (context : TContext)
         (last : option TResponse) (w : World)
  : option (TContext * option TResponse * World) :=
  match n with
  | O => Some (context, last, w)
  | S n' =>
      match llmCaller' context w with
      | (Fulfilled response, w1) =>
          match stopCondition' response context w1 with
          | (Fulfilled false, w2) =>
              match updateContext' with
              | Some f =>
                  match f response context w2 with
                  | (Fulfilled context', w3) =>
                      nonstop n' context' (Some response) w3
                  | _ => None
                  end
              | None => nonstop n' context (Some response) w2
              end
          | _ => None
          end
      | _ => None
      end
  end.

(** The calls of one pass: [update] is how [updateContext] settled,
    when there is one. *)
Definition pass_calls (context : TContext) (response : TResponse)
           (stop : settled bool) (update : option (settled TContext))
  : list call :=
  call_llmCaller context (Fulfilled response)
  :: call_stopCondition response context stop
  :: match update with
     | Some s => [call_updateContext response context s]
     | None => []
     end.

(** What a run of [loop] can be, case by case of its body: the shape of
    the recorded calls together with the completion.  [loop_sound]
    below shows that every run of [loop] is of this form. *)
Inductive loop_run
  : TContext -> option TResponse -> Z -> World -> run AgentLoopResult
    -> Prop :=
| run_max_loops context last it w :
    number_lt it maxLoops' = false ->
    loop_run context last it w
      {| outcome := Returned {| finalContext := context;
                                lastResponse := last;
                                reason := max_loops;
                                iterations := it |};
         world := w; calls := [] |}
| run_out_of_fuel context last it w :
    number_lt it maxLoops' = true ->
    loop_run context last it w
      {| outcome := OutOfFuel; world := w; calls := [] |}
| run_llmCaller_fails context last it w s w1 :
    number_lt it maxLoops' = true ->
    llmCaller' context w = (s, w1) ->
    unfulfilled s = true ->
    loop_run context last it w
      {| outcome := abort s; world := w1;
         calls := [call_llmCaller context s] |}
| run_stopCondition_fails context last it w r w1 s w2 :
    number_lt it maxLoops' = true ->
    llmCaller' context w = (Fulfilled r, w1) ->
    stopCondition' r context w1 = (s, w2) ->
    unfulfilled s = true ->
    loop_run context last it w
      {| outcome := abort s; world := w2;
         calls := pass_calls context r s None |}
| run_stop_condition context last it w r w1 w2 :
    number_lt it maxLoops' = true ->
    llmCaller' context w = (Fulfilled r, w1) ->
    stopCondition' r context w1 = (Fulfilled true, w2) ->
    loop_run context last it w
      {| outcome := Returned {| finalContext := context;
                                lastResponse := Some r;
                                reason := stop_condition;
                                iterations := increment it |};
         world := w2;
         calls := pass_calls context r (Fulfilled true) None |}
| run_updateContext_fails context last it w r w1 w2 f s w3 :
    number_lt it maxLoops' = true ->
    llmCaller' context w = (Fulfilled r, w1) ->
    stopCondition' r context w1 = (Fulfilled false, w2) ->
    updateContext' = Some f ->
    f r context w2 = (s, w3) ->
    unfulfilled s = true ->
    loop_run context last it w
      {| outcome := abort s; world := w3;
         calls := pass_calls context r (Fulfilled false) (Some s) |}
| run_next_updated context last it w r w1 w2 f context' w3 rest :
    number_lt it maxLoops' = true ->
    llmCaller' context w = (Fulfilled r, w1) ->
    stopCondition' r context w1 = (Fulfilled false, w2) ->
    updateContext' = Some f ->
    f r context w2 = (Fulfilled context', w3) ->
    loop_run context' (Some r) (increment it) w3 rest ->
    loop_run context last it w
      (prepend (pass_calls context r (Fulfilled false)
                           (Some (Fulfilled context'))) rest)
| run_next_unchanged context last it w r w1 w2 rest :
    number_lt it maxLoops' = true ->
    llmCaller' context w = (Fulfilled r, w1) ->
    stopCondition' r context w1 = (Fulfilled false, w2) ->
    updateContext' = None ->
    loop_run context (Some r) (increment it) w2 rest ->
    loop_run context last it w
      (prepend (pass_calls context r (Fulfilled false) None) rest).

End Loop.

(** [maxLoops = 10] in the destructuring pattern of line 72. *)
Definition maxLoops_or_default (options : AgentLoopOptions) : number :=
  match maxLoops options with
  | Some m => m
  | None => number_of_Z 10
  end.

(** The same options with another [maxLoops] property. *)
Definition with_maxLoops (options : AgentLoopOptions) (bound : option number)
  : AgentLoopOptions :=
  {| llmCaller := llmCaller options;
     stopCondition := stopCondition options;
     maxLoops := bound;
     updateContext := updateContext options;
     initialContext := initialContext options |}.

(** [agentLoop(options)], lines 69-105. *)
Definition agentLoop (fuel : nat) (options : AgentLoopOptions)
  : Exec AgentLoopResult :=
  loop (llmCaller options) (stopCondition options)
       (maxLoops_or_default options) (updateContext options)
       fuel (initialContext options) None 0%Z.

(** The first [n] iterations of [agentLoop] on [options] all complete
    without stopping. *)
Definition nonstop_iterations (options : AgentLoopOptions) (n : nat)
           (w : World) : option (TContext * option TResponse * World) :=
  nonstop (llmCaller options) (stopCondition options)
          (updateContext options) n (initialContext options) None w.

(** *** Observations on the recorded calls *)

Definition is_llmCaller (c : call) : bool :=
  match c with call_llmCaller _ _ => true | _ => false end.
Definition is_stopCondition (c : call) : bool :=
  match c with call_stopCondition _ _ _ => true | _ => false end.
Definition is_updateContext (c : call) : bool :=
  match c with call_updateContext _ _ _ => true | _ => false end.

Definition invocations (which : call -> bool) (cs : list call) : Z :=
  Z.of_nat (length (filter which cs)).

(** The context a call received. *)
Definition call_context (c : call) : TContext :=
  match c with
  | call_llmCaller context _ => context
  | call_stopCondition _ context _ => context
  | call_updateContext _ context _ => context
  end.

(** The value a call was rejected with, if it was. *)
Definition call_rejection (c : call) : option Thrown :=
  match c with
  | call_llmCaller _ (Rejected e) => Some e
  | call_stopCondition _ _ (Rejected e) => Some e
  | call_updateContext _ _ (Rejected e) => Some e
  | _ => None
  end.

(** The response of the most recent fulfilled [llmCaller] invocation. *)
Fixpoint latest_response (cs : list call) (earlier : option TResponse)
  : option TResponse :=
  match cs with
  | [] => earlier
  | call_llmCaller _ (Fulfilled r) :: cs' => latest_response cs' (Some r)
  | _ :: cs' => latest_response cs' earlier
  end.



(** The value of a variable of type [TResponse | undefined] is
    [undefined]: nothing was assigned to it, or what was assigned is one of
    the responses that are the value [undefined], which
    [undefined_response] tells. *)
Definition is_undefined (undefined_response : TResponse -> bool)
           (value : option TResponse) : bool :=
  match value with
  | None => true
  | Some response => undefined_response response
  end.

(** A call after which the function completes: one that did not fulfil,
    or a [stopCondition] call that answered [true]. *)
Definition ends_run (c : call) : bool :=
  match c with
  | call_llmCaller _ s => unfulfilled s
  | call_stopCondition _ _ (Fulfilled shouldStop) => shouldStop
  | call_stopCondition _ _ s => unfulfilled s
  | call_updateContext _ _ s => unfulfilled s
  end.

(** How the function completes after such a call, [n] being the value of
    the counter. *)
Definition completion_after (c : call) (n : Z) : completion AgentLoopResult :=
  match c with
  | call_llmCaller _ s => abort s
  | call_stopCondition response context (Fulfilled _) =>
      Returned {| finalContext := context;
                  lastResponse := Some response;
                  reason := stop_condition;
                  iterations := n |}
  | call_stopCondition _ _ s => abort s
  | call_updateContext _ _ s => abort s
  end.

(** The callback terminates: the promise it returns settles. *)
Definition settles {A} (f : Async A) : Prop :=
  forall w, fst (f w) <> Pending.

Definition callbacks_terminate (options : AgentLoopOptions) : Prop :=
  (forall context, settles (llmCaller options context))
  /\ (forall response context,
        settles (stopCondition options response context))
  /\ (forall f, updateContext options = Some f ->
       forall response context, settles (f response context)).

(** *** Further observations on the recorded calls *)

(** The call never settled. *)
Definition call_pending (c : call) : bool :=
  match c with
  | call_llmCaller _ Pending => true
  | call_stopCondition _ _ Pending => true
  | call_updateContext _ _ Pending => true
  | _ => false
  end.

(** [if (updateContext)], line 94. *)
Definition supplied {A} (callback : option A) : bool :=
  match callback with Some _ => true | None => false end.

(** The place of a call in the program order of lines 81-96, [previous]
    being the call recorded just before it:
    - [llmCaller] receives [initial] when it is the first call, and
      otherwise what the [updateContext] call just before it fulfilled
      with or, without [updateContext], the context of the [stopCondition]
      call just before it, which answered [false];
    - [stopCondition] receives the response and the context of the
      [llmCaller] call just before it;
    - [updateContext] receives the response and the context of the
      [stopCondition] call just before it, which answered [false]. *)
Definition follows_in_order (has_update : bool) (initial : TContext)
           (previous : option call) (c : call) : Prop :=
  match c with
  | call_llmCaller context _ =>
      match previous with
      | None => context = initial
      | Some (call_updateContext _ _ (Fulfilled context')) =>
          has_update = true /\ context = context'
      | Some (call_stopCondition _ context' (Fulfilled false)) =>
          has_update = false /\ context = context'
      | Some _ => False
      end
  | call_stopCondition response context _ =>
      previous = Some (call_llmCaller context (Fulfilled response))
  | call_updateContext response context _ =>
      has_update = true
      /\ previous
         = Some (call_stopCondition response context (Fulfilled false))
  end.

Fixpoint in_program_order (has_update : bool) (initial : TContext)
         (previous : option call) (cs : list call) : Prop :=
  match cs with
  | [] => True
  | c :: cs' =>
      follows_in_order has_update initial previous c
      /\ in_program_order has_update initial (Some c) cs'
  end.

(** The context that the latest fulfilled [updateContext] call among [cs]
    produced, [current] when there is none. *)
Fixpoint context_after (current : TContext) (cs : list call) : TContext :=
  match cs with
  | [] => current
  | call_updateContext _ _ (Fulfilled context') :: cs' =>
      context_after context' cs'
  | _ :: cs' => context_after current cs'
  end.


(** The run ended otherwise than by the bound: the stop condition held, a
    callback threw, or a callback never settled. *)
Definition ended_early (r : run AgentLoopResult) : Prop :=
  match outcome r with
  | Returned res => reason res = stop_condition
  | Threw _ | Hung => True
  | OutOfFuel => False
  end.

(** The same options with another [initialContext] property. *)
Definition with_initialContext (options : AgentLoopOptions)
           (context : TContext) : AgentLoopOptions :=
  {| llmCaller := llmCaller options;
     stopCondition := stopCondition options;
     maxLoops := maxLoops options;
     updateContext := updateContext options;
     initialContext := context |}.

(** What a caller sees who, after a first invocation returned [first],
    invokes [agentLoop] again and adds up: the iterations of both, and the
    last response of the second invocation if it obtained one. *)
Definition resumed (first : AgentLoopResult)
           (second : completion AgentLoopResult)
  : completion AgentLoopResult :=
  match second with
  | Returned res =>
      Returned {| finalContext := finalContext res;
                  lastResponse := match lastResponse res with
                                  | Some response => Some response
                                  | None => lastResponse first
                                  end;
                  reason := reason res;
                  iterations := iterations first + iterations res |}
  | other => other
  end.

(** One execution of the loop body (lines 79-96) in which a callback does
    not fulfil: how the function completes then, and the world it leaves;
    [None] when the pass stops or goes through. *)
Definition failing_pass (options : AgentLoopOptions) (context : TContext)
           (w : World) : option (completion AgentLoopResult * World) :=
  match llmCaller options context w with
  | (Fulfilled response, w1) =>
      match stopCondition options response context w1 with
      | (Fulfilled true, _) => None
      | (Fulfilled false, w2) =>
          match updateContext options with
          | Some f =>
              match f response context w2 with
              | (Fulfilled _, _) => None
              | (s, w3) => Some (abort s, w3)
              end
          | None => None
          end
      | (s, w2) => Some (abort s, w2)
      end
  | (s, w1) => Some (abort s, w1)
  end.

(** The run is over: the model did not run out of fuel. *)
Definition finished {A} (r : run A) : Prop := outcome r <> OutOfFuel.

(** The asynchronous function terminated: it returned or threw. *)
Definition terminated {A} (r : run A) : Prop :=
  match outcome r with
  | Returned _ | Threw _ => True
  | Hung | OutOfFuel => False
  end.

End Model.

Arguments Rejected {Thrown A} e.
Arguments Pending {Thrown A}.
Arguments Threw {Thrown A} e.
Arguments Hung {Thrown A}.
Arguments OutOfFuel {Thrown A}.

(** ** Concrete configurations

    The configurations of [src/index.test.ts] and some variations on them.
    Responses are strings, a context is a counter, thrown values are
    messages, and the world is the number of [llmCaller] invocations made
    so far (what the [vi.fn] mock of the tests keeps track of). *)

Module Examples.

#[local] Open Scope string_scope.

#[local] Abbreviation Options :=
  (AgentLoopOptions (TResponse := string) (TContext := nat)
                    (Thrown := string) (World := nat)).

(** [vi.fn().mockResolvedValue('response')] *)
Definition constant_llm (context : nat) : Async (Thrown := string) string :=
  fun calls_so_far => (Fulfilled "response", S calls_so_far).

(** [mockResolvedValueOnce('response1')], ['response2'], ['stop'] *)
Definition scripted_llm (context : nat) : Async (Thrown := string) string :=
  fun calls_so_far =>
    (Fulfilled (nth calls_so_far ["response1"; "response2"] "stop"),
     S calls_so_far).

(** 'should run until stop condition is met' *)
Definition until_stop : Options :=
  {| llmCaller := scripted_llm;
     stopCondition := fun response _ w => (Fulfilled (response =? "stop"), w);
     maxLoops := None;
     updateContext := None;
     initialContext := 0%nat |}.

(** 'should stop when max loops is reached', for any bound. *)
Definition never_stopping (bound : option number) : Options :=
  {| llmCaller := constant_llm;
     stopCondition := fun _ _ w => (Fulfilled false, w);
     maxLoops := bound;
     updateContext := None;
     initialContext := 0%nat |}.

(** 'should update context between iterations', for any bound. *)
Definition counting (bound : option number) : Options :=
  {| llmCaller := constant_llm;
     stopCondition := fun _ count w => (Fulfilled (3 <=? count)%nat, w);
     maxLoops := bound;
     updateContext := Some (fun _ count w => (Fulfilled (count + 1)%nat, w));
     initialContext := 0%nat |}.

(** 'should handle async stop condition and update context' *)
Definition stops_at_once : Options :=
  {| llmCaller := constant_llm;
     stopCondition := fun _ _ w => (Fulfilled true, w);
     maxLoops := None;
     updateContext := Some (fun _ _ w => (Fulfilled 0%nat, w));
     initialContext := 0%nat |}.

(** A responder whose second invocation rejects. *)
Definition failing_llm (context : nat) : Async (Thrown := string) string :=
  fun calls_so_far =>
    match calls_so_far with
    | 1%nat => (Rejected "overloaded", S calls_so_far)
    | _ => (Fulfilled "response", S calls_so_far)
    end.

Definition failing : Options :=
  {| llmCaller := failing_llm;
     stopCondition := fun _ _ w => (Fulfilled false, w);
     maxLoops := None;
     updateContext := Some (fun _ count w => (Fulfilled (count + 1)%nat, w));
     initialContext := 0%nat |}.

(** A stop condition that never holds, with an [updateContext]. *)
Definition never_stopping_counting (bound : option number) : Options :=
  {| llmCaller := constant_llm;
     stopCondition := fun _ _ w => (Fulfilled false, w);
     maxLoops := bound;
     updateContext := Some (fun _ count w => (Fulfilled (count + 1)%nat, w));
     initialContext := 0%nat |}.

(** [llmCaller: async () => undefined], with [TResponse] instantiated to
    [string | undefined]: [None] is the response [undefined]. *)
Definition resolves_undefined
  : AgentLoopOptions (TResponse := option string) (TContext := nat)
                     (Thrown := string) (World := nat) :=
  {| llmCaller := fun _ calls_so_far => (Fulfilled None, S calls_so_far);
     stopCondition := fun _ _ w => (Fulfilled true, w);
     maxLoops := None;
     updateContext := None;
     initialContext := 0%nat |}.

Definition undefined_string (response : option string) : bool :=
  match response with None => true | Some _ => false end.

(** An [updateContext] whose promise never settles. *)
Definition hanging : Options :=
  {| llmCaller := constant_llm;
     stopCondition := fun _ _ w => (Fulfilled false, w);
     maxLoops := None;
     updateContext := Some (fun _ _ w => (Pending, w));
     initialContext := 0%nat |}.

End Examples.

(** ** Callers

    The [updateContext] of the usage example of the README and of the chat
    simulations of the test suite: the context is the message history and
    the response, turned into a message, is appended to it
    ([messages: [...ctx.messages, newMsg]]). *)

Module Callers.




End Callers.

(** * Properties *)

(** ** Comparisons of the counter with the bound *)

Lemma number_lt_Finite (n : Z) (q : Q) :
  number_lt n (Finite q) = true <-> (n * QDen q < Qnum q)%Z.
Proof.
  unfold number_lt, Qle_bool; cbn [inject_Z Qnum Qden].
  rewrite negb_true_iff, Z.leb_gt. lia.
Qed.

Lemma number_le_Finite (n : Z) (q : Q) :
  number_le n (Finite q) = true <-> (n * QDen q <= Qnum q)%Z.
Proof.
  unfold number_le, Qle_bool; cbn [inject_Z Qnum Qden].
  rewrite Z.leb_le. lia.
Qed.

(** The test [iterations < maxLoops] is downward closed in the counter. *)
Lemma number_lt_mono (n n' : Z) (m : number) :
  (n' <= n)%Z -> number_lt n m = true -> number_lt n' m = true.
Proof.
  destruct m as [ | | | q]; try (intros; assumption).
  rewrite !number_lt_Finite. intros Hle Hlt. nia.
Qed.

Lemma number_le_lt (n k : Z) (m : number) :
  (n < k)%Z -> number_le k m = true -> number_lt n m = true.
Proof.
  destruct m as [ | | | q]; try (intros; assumption).
  rewrite number_lt_Finite, number_le_Finite. intros Hlt Hle. nia.
Qed.

(** Against an integer bound the test is the integer comparison. *)
Lemma number_lt_is_Z (n z : Z) (m : number) :
  number_is_Z m z -> number_lt n m = (n <? z)%Z.
Proof.
  destruct m as [ | | | q]; cbn [number_is_Z]; try contradiction.
  unfold Qeq; cbn [inject_Z Qnum Qden]. intros Hq.
  destruct (Z.ltb_spec n z) as [Hlt | Hge].
  - apply number_lt_Finite. nia.
  - apply not_true_is_false. rewrite number_lt_Finite. nia.
Qed.

Lemma number_is_Z_of_Z (z : Z) : number_is_Z (number_of_Z z) z.
Proof. cbn. reflexivity. Qed.

(** A negative bound lets no iteration start. *)
Lemma number_lt_negative (n : Z) (m : number) :
  (0 <= n)%Z -> number_negative m -> number_lt n m = false.
Proof.
  destruct m as [ | | | q]; cbn [number_negative];
    try contradiction; try reflexivity.
  unfold Qlt; cbn [Qnum Qden]. intros Hn Hq.
  apply not_true_is_false. rewrite number_lt_Finite. nia.
Qed.

(** ** The counter *)

Lemma increment_bounds (n : Z) : (n <= increment n <= n + 1)%Z.
Proof. unfold increment. destruct (Z.ltb_spec n counter_limit); lia. Qed.

Lemma increment_positive (n : Z) : (0 <= n)%Z -> (0 < increment n)%Z.
Proof.
  unfold increment, counter_limit.
  destruct (Z.ltb_spec n 9007199254740992); lia.
Qed.

Lemma counter_after_none (n : Z) : counter_after n 0 = n.
Proof. unfold counter_after. lia. Qed.

Lemma counter_after_increment (n passes : Z) :
  (0 <= passes)%Z ->
  counter_after (increment n) passes = counter_after n (passes + 1).
Proof.
  unfold counter_after, increment, counter_limit.
  destruct (Z.ltb_spec n 9007199254740992); lia.
Qed.

Lemma counter_after_one (n : Z) : counter_after n 1 = increment n.
Proof.
  rewrite <- (counter_after_none (increment n)).
  now rewrite counter_after_increment.
Qed.

Lemma counter_after_zero (passes : Z) :
  (0 <= passes)%Z -> counter_after 0 passes = counted passes.
Proof. unfold counter_after, counted, counter_limit. lia. Qed.

Lemma counted_below_limit (passes : Z) :
  (passes <= counter_limit)%Z -> counted passes = passes.
Proof. unfold counted. lia. Qed.

Lemma counted_above_limit (passes : Z) :
  (counter_limit <= passes)%Z -> counted passes = counter_limit.
Proof. unfold counted. lia. Qed.

Lemma counter_after_le (n passes : Z) :
  (0 <= passes)%Z -> (n <= counter_after n passes <= n + passes)%Z.
Proof. unfold counter_after, counter_limit. lia. Qed.

(** ** The sequencing of awaited calls *)

Section Sequencing.

Context {TResponse TContext Thrown World : Type}.

#[local] Abbreviation Async := (Async (Thrown := Thrown) (World := World)).
#[local] Abbreviation Exec :=
  (Exec (TResponse := TResponse) (TContext := TContext)
        (Thrown := Thrown) (World := World)).
#[local] Abbreviation call :=
  (call (TResponse := TResponse) (TContext := TContext) (Thrown := Thrown)).

Lemma prepend_nil {A} (r : run A) :
  prepend ([] : list call) r = r :> run (World := World) A.
Proof. destruct r; reflexivity. Qed.

Lemma prepend_prepend {A} (cs1 cs2 : list call) (r : run (World := World) A) :
  prepend cs1 (prepend cs2 r) = prepend (cs1 ++ cs2) r.
Proof. unfold prepend; cbn. now rewrite app_assoc. Qed.

Lemma bind_ret {A B} (a : A) (k : A -> Exec B) (w : World) :
  bind (ret a) k w = k a w.
Proof. unfold bind, ret; cbn. apply prepend_nil. Qed.

Lemma bind_await_fulfilled {A B} (record : settled A -> call)
      (f : Async A) (k : A -> Exec B) (w w' : World) (a : A) :
  f w = (Fulfilled a, w') ->
  bind (await record f) k w = prepend [record (Fulfilled a)] (k a w').
Proof. intros Hf. unfold bind, await. rewrite Hf. reflexivity. Qed.

Lemma bind_await_unfulfilled {A B} (record : settled A -> call)
      (f : Async A) (k : A -> Exec B) (w w' : World) (s : settled A) :
  f w = (s, w') ->
  unfulfilled s = true ->
  bind (await record f) k w =
  {| outcome := abort s; world := w'; calls := [record s] |}.
Proof.
  intros Hf Hs. unfold bind, await. rewrite Hf.
  destruct s; [discriminate | reflexivity | reflexivity].
Qed.

End Sequencing.

(** ** Runs of the loop *)

Section LoopFacts.

Context {TResponse TContext Thrown World : Type}.

#[local] Abbreviation Async := (Async (Thrown := Thrown) (World := World)).

Variable llm : TContext -> Async TResponse.
Variable stop : TResponse -> TContext -> Async bool.
Variable m : number.
Variable upd : option (TResponse -> TContext -> Async TContext).

#[local] Abbreviation run_loop := (loop llm stop m upd).

Lemma loop_max_loops fuel context last it w :
  number_lt it m = false ->
  run_loop fuel context last it w =
  {| outcome := Returned {| finalContext := context; lastResponse := last;
                            reason := max_loops; iterations := it |};
     world := w; calls := [] |}.
Proof. intros Hlt. destruct fuel; cbn [loop]; now rewrite Hlt. Qed.

Lemma loop_out_of_fuel context last it w :
  number_lt it m = true ->
  run_loop 0 context last it w =
  {| outcome := OutOfFuel; world := w; calls := [] |}.
Proof. intros Hlt. cbn [loop]. now rewrite Hlt. Qed.

Section Pass.

Variables (fuel : nat) (context : TContext) (last : option TResponse)
          (it : Z) (w : World).
Hypothesis Hlt : number_lt it m = true.

Lemma loop_llmCaller_fails s w1 :
  llm context w = (s, w1) ->
  unfulfilled s = true ->
  run_loop (S fuel) context last it w =
  {| outcome := abort s; world := w1;
     calls := [call_llmCaller context s] |}.
Proof.
  intros Hllm Hs. cbn [loop]. rewrite Hlt.
  now erewrite bind_await_unfulfilled by eassumption.
Qed.

Variables (r : TResponse) (w1 : World).
Hypothesis Hllm : llm context w = (Fulfilled r, w1).

Lemma loop_stopCondition_fails s w2 :
  stop r context w1 = (s, w2) ->
  unfulfilled s = true ->
  run_loop (S fuel) context last it w =
  {| outcome := abort s; world := w2;
     calls := pass_calls context r s None |}.
Proof.
  intros Hstop Hs. cbn [loop]. rewrite Hlt.
  erewrite bind_await_fulfilled by eassumption.
  now erewrite bind_await_unfulfilled by eassumption.
Qed.

Lemma loop_stop_condition w2 :
  stop r context w1 = (Fulfilled true, w2) ->
  run_loop (S fuel) context last it w =
  {| outcome := Returned {| finalContext := context;
                            lastResponse := Some r;
                            reason := stop_condition;
                            iterations := increment it |};
     world := w2;
     calls := pass_calls context r (Fulfilled true) None |}.
Proof.
  intros Hstop. cbn [loop]. rewrite Hlt.
  erewrite bind_await_fulfilled by eassumption.
  now erewrite bind_await_fulfilled by eassumption.
Qed.

Variable w2 : World.
Hypothesis Hstop : stop r context w1 = (Fulfilled false, w2).

Lemma loop_updateContext_fails f s w3 :
  upd = Some f ->
  f r context w2 = (s, w3) ->
  unfulfilled s = true ->
  run_loop (S fuel) context last it w =
  {| outcome := abort s; world := w3;
     calls := pass_calls context r (Fulfilled false) (Some s) |}.
Proof.
  intros Hupd Hf Hs. cbn [loop]. rewrite Hlt.
  erewrite bind_await_fulfilled by eassumption.
  erewrite bind_await_fulfilled by eassumption. rewrite Hupd.
  now erewrite bind_await_unfulfilled by eassumption.
Qed.

Lemma loop_next_updated f context' w3 :
  upd = Some f ->
  f r context w2 = (Fulfilled context', w3) ->
  run_loop (S fuel) context last it w =
  prepend (pass_calls context r (Fulfilled false)
                      (Some (Fulfilled context')))
          (run_loop fuel context' (Some r) (increment it) w3).
Proof.
  intros Hupd Hf. cbn [loop]. rewrite Hlt.
  erewrite bind_await_fulfilled by eassumption.
  erewrite bind_await_fulfilled by eassumption. rewrite Hupd.
  erewrite bind_await_fulfilled by eassumption.
  now rewrite !prepend_prepend.
Qed.

Lemma loop_next_unchanged :
  upd = None ->
  run_loop (S fuel) context last it w =
  prepend (pass_calls context r (Fulfilled false) None)
          (run_loop fuel context (Some r) (increment it) w2).
Proof.
  intros Hupd. cbn [loop]. rewrite Hlt.
  erewrite bind_await_fulfilled by eassumption.
  erewrite bind_await_fulfilled by eassumption. rewrite Hupd.
  rewrite bind_ret. now rewrite !prepend_prepend.
Qed.

End Pass.

(** Every run of [loop], whatever the fuel, is one of the runs that
    [loop_run] describes. *)
Lemma loop_sound fuel :
  forall context last it w,
    loop_run llm stop m upd context last it w
             (run_loop fuel context last it w).
Proof.
  induction fuel as [ | fuel IH]; intros context last it w;
    destruct (number_lt it m) eqn:Hlt;
    try (rewrite loop_max_loops by assumption; now constructor).
  { rewrite loop_out_of_fuel by assumption. now constructor. }
  destruct (llm context w) as [s1 w1] eqn:Hllm.
  destruct (unfulfilled s1) eqn:Hs1.
  { erewrite loop_llmCaller_fails by eassumption.
    eapply run_llmCaller_fails; eassumption. }
  destruct s1 as [r | | ]; try discriminate.
  destruct (stop r context w1) as [s2 w2] eqn:Hstop.
  destruct (unfulfilled s2) eqn:Hs2.
  { erewrite loop_stopCondition_fails by eassumption.
    eapply run_stopCondition_fails; eassumption. }
  destruct s2 as [[ | ] | | ]; try discriminate.
  { erewrite loop_stop_condition by eassumption.
    eapply run_stop_condition; eassumption. }
  assert (Hcases : (exists f, upd = Some f) \/ upd = None)
    by (destruct upd; eauto).
  destruct Hcases as [[f Hupd] | Hupd].
  - destruct (f r context w2) as [s3 w3] eqn:Hf.
    destruct (unfulfilled s3) eqn:Hs3.
    { erewrite loop_updateContext_fails by eassumption.
      eapply run_updateContext_fails; eassumption. }
    destruct s3 as [context' | | ]; try discriminate.
    erewrite loop_next_updated by eassumption.
    eapply run_next_updated; eauto.
  - erewrite loop_next_unchanged by eassumption.
    eapply run_next_unchanged; eauto.
Qed.

End LoopFacts.

(** ** Counting the recorded calls *)

Section Counting.

Context {TResponse TContext Thrown : Type}.

#[local] Abbreviation call :=
  (call (TResponse := TResponse) (TContext := TContext) (Thrown := Thrown)).

Lemma invocations_nil (which : call -> bool) : invocations which [] = 0%Z.
Proof. reflexivity. Qed.

Lemma invocations_app (which : call -> bool) (cs1 cs2 : list call) :
  invocations which (cs1 ++ cs2)
  = (invocations which cs1 + invocations which cs2)%Z.
Proof. unfold invocations. rewrite filter_app, length_app. lia. Qed.

Lemma invocations_nonneg (which : call -> bool) (cs : list call) :
  (0 <= invocations which cs)%Z.
Proof. unfold invocations. lia. Qed.

Lemma llmCaller_in_pass (context : TContext) (r : TResponse)
      (s : settled (Thrown := Thrown) bool) update :
  invocations is_llmCaller (pass_calls context r s update) = 1%Z.
Proof. destruct update; reflexivity. Qed.

Lemma stopCondition_in_pass (context : TContext) (r : TResponse)
      (s : settled (Thrown := Thrown) bool) update :
  invocations is_stopCondition (pass_calls context r s update) = 1%Z.
Proof. destruct update; reflexivity. Qed.

Lemma updateContext_in_pass (context : TContext) (r : TResponse)
      (s : settled (Thrown := Thrown) bool) update :
  invocations is_updateContext (pass_calls context r s update)
  = match update with Some _ => 1%Z | None => 0%Z end.
Proof. destruct update; reflexivity. Qed.

End Counting.

(** ** What holds of every run *)

(** Finds the call [c] of [H : c1 :: ... :: cn :: cs = pre ++ c :: post]
    among [c1], ..., [cn], or leaves [H : cs = pre ++ c :: post]. *)
Ltac locate_call H :=
  match type of H with
  | [] = ?pre ++ _ :: _ => destruct pre; discriminate H
  | _ :: _ = ?pre ++ _ :: _ =>
      let H' := fresh "Hcall" in
      destruct pre as [ | ? pre]; cbn in H;
      [ injection H as H' H; subst | injection H as H' H; locate_call H ]
  | _ => idtac
  end.

Section LoopInvariants.

Context {TResponse TContext Thrown World : Type}.

#[local] Abbreviation Async := (Async (Thrown := Thrown) (World := World)).

Variable llm : TContext -> Async TResponse.
Variable stop : TResponse -> TContext -> Async bool.
Variable m : number.
Variable upd : option (TResponse -> TContext -> Async TContext).

#[local] Abbreviation runs := (loop_run llm stop m upd).

(** The counter that is returned has been incremented once per
    [llmCaller] invocation. *)
Lemma loop_run_iterations context last it w rn :
  runs context last it w rn ->
  forall res, outcome rn = Returned res ->
  iterations res
  = counter_after it (invocations is_llmCaller (calls rn)).
Proof.
  induction 1 as [ ? ? ? ? _ | ? ? ? ? _ | ? ? ? ? s ? _ _ Hs
                 | ? ? ? ? ? ? s ? _ _ _ Hs | | ? ? ? ? ? ? ? ? s ? _ _ _ _ _ Hs
                 | ? ? ? ? ? ? ? ? ? ? ? _ _ _ _ _ _ IH
                 | ? ? ? ? ? ? ? ? _ _ _ _ _ IH ];
    intros res Hres; cbn in Hres;
    try (destruct s; discriminate);
    try discriminate.
  - injection Hres as <-. cbn. now rewrite counter_after_none.
  - injection Hres as <-. cbn [calls iterations].
    now rewrite llmCaller_in_pass, counter_after_one.
  - rewrite (IH _ Hres). cbn [prepend calls].
    rewrite invocations_app, llmCaller_in_pass.
    rewrite counter_after_increment by apply invocations_nonneg.
    f_equal. lia.
  - rewrite (IH _ Hres). cbn [prepend calls].
    rewrite invocations_app, llmCaller_in_pass.
    rewrite counter_after_increment by apply invocations_nonneg.
    f_equal. lia.
Qed.

(** Every [llmCaller] invocation was preceded by a successful test
    [iterations < maxLoops], on the counter as it stood then. *)
Lemma loop_run_bound context last it w rn :
  runs context last it w rn ->
  invocations is_llmCaller (calls rn) = 0%Z
  \/ number_lt (counter_after
                  it (invocations is_llmCaller (calls rn) - 1)) m = true.
Proof.
  induction 1 as [ | | ? ? ? ? ? ? Hlt | ? ? ? ? ? ? ? ? Hlt
                 | ? ? ? ? ? ? ? Hlt | ? ? ? ? ? ? ? ? ? ? Hlt
                 | ? ? ? ? ? ? ? ? ? ? ? Hlt _ _ _ _ _ IH
                 | ? ? ? ? ? ? ? ? Hlt _ _ _ _ IH ];
    try (left; reflexivity);
    try (right; cbn [calls]; try rewrite llmCaller_in_pass;
         change (invocations is_llmCaller [_]) with 1%Z;
         now rewrite Z.sub_diag, counter_after_none).
  - right. cbn [prepend calls]. rewrite invocations_app, llmCaller_in_pass.
    pose proof (invocations_nonneg is_llmCaller (calls rest)) as Hnonneg.
    destruct (Z.eq_dec (invocations is_llmCaller (calls rest)) 0) as [Hz | Hz].
    + rewrite Hz. cbn. now rewrite counter_after_none.
    + destruct IH as [IH | IH]; [contradiction | ].
      rewrite counter_after_increment in IH by lia.
      rewrite <- IH. do 2 f_equal. lia.
  - right. cbn [prepend calls]. rewrite invocations_app, llmCaller_in_pass.
    pose proof (invocations_nonneg is_llmCaller (calls rest)) as Hnonneg.
    destruct (Z.eq_dec (invocations is_llmCaller (calls rest)) 0) as [Hz | Hz].
    + rewrite Hz. cbn. now rewrite counter_after_none.
    + destruct IH as [IH | IH]; [contradiction | ].
      rewrite counter_after_increment in IH by lia.
      rewrite <- IH. do 2 f_equal. lia.
Qed.

(** [lastResponse] is the response of the latest [llmCaller] invocation,
    and it is [undefined] exactly as long as the counter is zero. *)
Lemma loop_run_lastResponse context last it w rn :
  runs context last it w rn ->
  forall res, outcome rn = Returned res ->
  lastResponse res = latest_response (calls rn) last
  /\ ((0 <= it)%Z -> (last = None <-> it = 0%Z) ->
      (lastResponse res = None <-> iterations res = 0%Z)).
Proof.
  induction 1 as [ | | ? ? ? ? s | ? ? ? ? ? ? s | | ? ? ? ? ? ? ? ? s
                 | ? ? ? ? ? ? ? ? ? ? ? _ _ _ _ _ _ IH
                 | ? ? ? ? ? ? ? ? _ _ _ _ _ IH ];
    intros res Hres; cbn in Hres;
    try (destruct s; discriminate); try discriminate;
    try (injection Hres as <-; cbn; split; [reflexivity | ]).
  - tauto.
  - intros Hit _. pose proof (increment_positive Hit).
    split; [discriminate | lia].
  - destruct (IH _ Hres) as [IH1 IH2]. pose proof (@increment_positive it).
    split.
    + rewrite IH1. reflexivity.
    + intros Hit _. apply IH2; [lia | ]. split; [discriminate | lia].
  - destruct (IH _ Hres) as [IH1 IH2]. pose proof (@increment_positive it).
    split.
    + rewrite IH1. reflexivity.
    + intros Hit _. apply IH2; [lia | ]. split; [discriminate | lia].
Qed.

(** Without [updateContext] the context never changes. *)
Lemma loop_run_unchanged context last it w rn :
  upd = None ->
  runs context last it w rn ->
  Forall (fun c => call_context c = context) (calls rn)
  /\ forall res, outcome rn = Returned res -> finalContext res = context.
Proof.
  intros Hupd.
  induction 1 as [ | | ? ? ? ? s | ? ? ? ? ? ? s | | ? ? ? ? ? ? ? f s ? _ _ _ Hf
                 | ? ? ? ? ? ? ? f ? ? ? _ _ _ Hf
                 | ? ? ? ? ? ? ? ? _ _ _ _ _ IH ];
    try congruence;
    (split; [ | intros res Hres; cbn in Hres;
                try (destruct s; discriminate); try discriminate;
                try (injection Hres as <-; reflexivity) ]).
  1-5: repeat constructor.
  - destruct IH as [IH _]. cbn. repeat constructor. exact IH.
  - destruct IH as [_ IH]. exact (IH _ Hres).
Qed.


(** A call that ends the run is the last one recorded, and it decides how
    the function completes. *)
Lemma loop_run_ends context last it w rn :
  runs context last it w rn ->
  forall pre c post,
    calls rn = pre ++ c :: post ->
    ends_run c = true ->
    post = []
    /\ outcome rn
       = completion_after
           c (counter_after it (invocations is_llmCaller (calls rn))).
Proof.
  induction 1 as [ | | ? ? ? ? s | ? ? ? ? ? ? s | | ? ? ? ? ? ? ? ? s
                 | ? ? ? ? ? ? ? ? ? ? ? _ _ _ _ _ _ IH
                 | ? ? ? ? ? ? ? ? _ _ _ _ _ IH ];
    intros pre c post Hcalls Hc; unfold pass_calls in Hcalls; cbn in Hcalls.
  1-6: locate_call Hcalls; cbn in Hc; try discriminate;
       try (destruct s; try discriminate); auto.
  - split; [reflexivity | ]. cbn [outcome calls completion_after].
    now rewrite llmCaller_in_pass, counter_after_one.
  - locate_call Hcalls; cbn in Hc; try discriminate.
    destruct (IH _ _ _ Hcalls Hc) as [-> Hout]. split; [reflexivity | ].
    cbn [prepend outcome calls]. rewrite Hout. f_equal.
    rewrite invocations_app, llmCaller_in_pass.
    rewrite counter_after_increment by apply invocations_nonneg.
    f_equal. lia.
  - locate_call Hcalls; cbn in Hc; try discriminate.
    destruct (IH _ _ _ Hcalls Hc) as [-> Hout]. split; [reflexivity | ].
    cbn [prepend outcome calls]. rewrite Hout. f_equal.
    rewrite invocations_app, llmCaller_in_pass.
    rewrite counter_after_increment by apply invocations_nonneg.
    f_equal. lia.
Qed.

(** [n] passes that do not stop are the first [n] passes of the loop. *)
Lemma loop_nonstop n :
  forall context last it w context' last' w',
    nonstop llm stop upd n context last w = Some (context', last', w') ->
    n = 0%nat \/ number_lt (counter_after it (Z.of_nat n - 1)) m = true ->
    forall fuel, exists cs,
      loop llm stop m upd (n + fuel) context last it w
      = prepend cs (loop llm stop m upd fuel context' last'
                         (counter_after it (Z.of_nat n)) w')
      /\ invocations is_llmCaller cs = Z.of_nat n
      /\ invocations is_updateContext cs
         = match upd with Some _ => Z.of_nat n | None => 0%Z end.
Proof.
  induction n as [ | n IH]; intros context last it w context' last' w' Hn Hlt fuel.
  - injection Hn as <- <- <-. exists []. rewrite prepend_nil.
    cbn [Z.of_nat]. rewrite counter_after_none.
    repeat split. now destruct upd.
  - assert (Hit : number_lt it m = true).
    { destruct Hlt as [Hlt | Hlt]; [discriminate | ].
      revert Hlt. apply number_lt_mono.
      apply counter_after_le. lia. }
    assert (Hnext : n = 0%nat
                    \/ number_lt (counter_after (increment it)
                                                (Z.of_nat n - 1)) m = true).
    { destruct n; [now left | right].
      destruct Hlt as [Hlt | Hlt]; [discriminate | ].
      rewrite counter_after_increment by lia.
      rewrite <- Hlt. do 2 f_equal. lia. }
    assert (Hcounter : counter_after (increment it) (Z.of_nat n)
                       = counter_after it (Z.of_nat (S n))).
    { rewrite counter_after_increment by lia. f_equal. lia. }
    cbn [nonstop] in Hn.
    destruct (llm context w) as [[r | | ] w1] eqn:Hllm; try discriminate.
    destruct (stop r context w1) as [[[ | ] | | ] w2] eqn:Hstop;
      try discriminate.
    assert (Hcases : (exists f, upd = Some f) \/ upd = None)
      by (destruct upd; eauto).
    destruct Hcases as [[f Hupd] | Hupd]; rewrite Hupd in Hn.
    + destruct (f r context w2) as [[context1 | | ] w3] eqn:Hf;
        try discriminate.
      rewrite <- Hupd in Hn.
      destruct (IH _ _ (increment it) _ _ _ _ Hn Hnext fuel)
        as (cs & Hrun & Hl & Hu).
      eexists. cbn [Nat.add].
      erewrite loop_next_updated by eassumption.
      rewrite Hrun, prepend_prepend, Hcounter. split; [reflexivity | ].
      rewrite !invocations_app, llmCaller_in_pass, updateContext_in_pass.
      rewrite Hl, Hu, Hupd. lia.
    + rewrite <- Hupd in Hn.
      destruct (IH _ _ (increment it) _ _ _ _ Hn Hnext fuel)
        as (cs & Hrun & Hl & Hu).
      eexists. cbn [Nat.add].
      erewrite loop_next_unchanged by eassumption.
      rewrite Hrun, prepend_prepend, Hcounter. split; [reflexivity | ].
      rewrite !invocations_app, llmCaller_in_pass, updateContext_in_pass.
      rewrite Hl, Hu, Hupd. lia.
Qed.

(** Once a run is over, more fuel changes nothing. *)
Lemma loop_fuel_irrelevant fuel :
  forall context last it w,
    finished (loop llm stop m upd fuel context last it w) ->
    forall fuel', (fuel <= fuel')%nat ->
    loop llm stop m upd fuel' context last it w
    = loop llm stop m upd fuel context last it w.
Proof.
  induction fuel as [ | fuel IH]; intros context last it w Hfin fuel' Hle;
    destruct (number_lt it m) eqn:Hlt;
    try (now rewrite !loop_max_loops by assumption).
  { rewrite loop_out_of_fuel in Hfin by assumption.
    now destruct Hfin. }
  destruct fuel' as [ | fuel']; [lia | ].
  destruct (llm context w) as [s1 w1] eqn:Hllm.
  destruct (unfulfilled s1) eqn:Hs1.
  { now erewrite !loop_llmCaller_fails by eassumption. }
  destruct s1 as [r | | ]; try discriminate.
  destruct (stop r context w1) as [s2 w2] eqn:Hstop.
  destruct (unfulfilled s2) eqn:Hs2.
  { now erewrite !loop_stopCondition_fails by eassumption. }
  destruct s2 as [[ | ] | | ]; try discriminate.
  { now erewrite !loop_stop_condition by eassumption. }
  assert (Hcases : (exists f, upd = Some f) \/ upd = None)
    by (destruct upd; eauto).
  destruct Hcases as [[f Hupd] | Hupd].
  - destruct (f r context w2) as [s3 w3] eqn:Hf.
    destruct (unfulfilled s3) eqn:Hs3.
    { now erewrite !loop_updateContext_fails by eassumption. }
    destruct s3 as [context' | | ]; try discriminate.
    erewrite loop_next_updated in Hfin by eassumption.
    erewrite !loop_next_updated by eassumption.
    f_equal. apply IH; [exact Hfin | lia].
  - erewrite loop_next_unchanged in Hfin by eassumption.
    erewrite !loop_next_unchanged by eassumption.
    f_equal. apply IH; [exact Hfin | lia].
Qed.

Section Termination.

Hypothesis llm_settles : forall context, settles (llm context).
Hypothesis stop_settles : forall response context,
    settles (stop response context).
Hypothesis upd_settles : forall f, upd = Some f ->
    forall response context, settles (f response context).

(** With callbacks that terminate, the loop is over within as many passes
    as it takes the counter to fail the test [iterations < maxLoops]. *)
Lemma loop_terminates fuel :
  forall context last it w,
    number_lt (counter_after it (Z.of_nat fuel)) m = false ->
    terminated (loop llm stop m upd fuel context last it w).
Proof.
  induction fuel as [ | fuel IH]; intros context last it w Hfuel;
    destruct (number_lt it m) eqn:Hlt;
    try (rewrite loop_max_loops by assumption; exact I).
  { cbn [Z.of_nat] in Hfuel. rewrite counter_after_none in Hfuel.
    congruence. }
  assert (Hnext : number_lt (counter_after (increment it) (Z.of_nat fuel)) m
                  = false).
  { rewrite counter_after_increment by lia.
    rewrite <- Hfuel. do 2 f_equal. lia. }
  destruct (llm context w) as [s1 w1] eqn:Hllm.
  pose proof (llm_settles context w) as Hs1. rewrite Hllm in Hs1.
  destruct s1 as [r | e | ]; [ | | now destruct Hs1 ].
  2: { erewrite loop_llmCaller_fails by (eassumption || reflexivity).
       exact I. }
  destruct (stop r context w1) as [s2 w2] eqn:Hstop.
  pose proof (stop_settles r context w1) as Hs2. rewrite Hstop in Hs2.
  destruct s2 as [[ | ] | e | ]; [ | | | now destruct Hs2 ].
  { erewrite loop_stop_condition by eassumption. exact I. }
  2: { erewrite loop_stopCondition_fails by (eassumption || reflexivity).
       exact I. }
  assert (Hcases : (exists f, upd = Some f) \/ upd = None)
    by (destruct upd; eauto).
  destruct Hcases as [[f Hupd] | Hupd].
  - destruct (f r context w2) as [s3 w3] eqn:Hf.
    pose proof (upd_settles Hupd r context w2) as Hs3. rewrite Hf in Hs3.
    destruct s3 as [context' | e | ]; [ | | now destruct Hs3 ].
    + erewrite loop_next_updated by eassumption. apply IH, Hnext.
    + erewrite loop_updateContext_fails by (eassumption || reflexivity).
      exact I.
  - erewrite loop_next_unchanged by eassumption. apply IH, Hnext.
Qed.

End Termination.

End LoopInvariants.




(** ** The bound, seen from the counter *)

(** Under an integer bound [z] at most [max 0 z] passes start. *)
Lemma number_lt_passes (n z : Z) (m : number) :
  number_is_Z m z ->
  (0 <= n)%Z ->
  n = 0%Z \/ number_lt (n - 1) m = true ->
  (n <= Z.max 0 z)%Z.
Proof.
  intros Hm Hn [-> | Hlt]; [lia | ].
  rewrite number_lt_is_Z with (z := z) in Hlt by exact Hm.
  apply Z.ltb_lt in Hlt. lia.
Qed.

(** When the pass that made the [n]th invocation of [llmCaller] was
    allowed, the counter it left has passed the test before. *)
Lemma counted_tested (n : Z) (m : number) :
  (0 <= n)%Z ->
  n = 0%Z \/ number_lt (counter_after 0 (n - 1)) m = true ->
  counted n = 0%Z \/ number_lt (counted n - 1) m = true.
Proof.
  intros Hn [-> | Hlt]; [now left | ].
  destruct (Z.eq_dec n 0) as [-> | Hpos]; [now left | right].
  rewrite counter_after_zero in Hlt by lia.
  revert Hlt. apply number_lt_mono. unfold counted, counter_limit. lia.
Qed.

(** Under a bound that the counter can reach, the counter is exact. *)
Lemma counted_exact (n : Z) (m : number) :
  (0 <= n)%Z ->
  n = 0%Z \/ number_lt (counter_after 0 (n - 1)) m = true ->
  number_lt counter_limit m = false ->
  counted n = n.
Proof.
  intros Hn Htested Hlimit.
  assert (Hpos : (0 < counter_limit)%Z) by reflexivity.
  destruct (Z.le_gt_cases n counter_limit) as [Hle | Hgt];
    [unfold counted; lia | ].
  destruct Htested as [-> | Hlt]; [reflexivity | ].
  rewrite counter_after_zero in Hlt by lia.
  replace (counted (n - 1)) with counter_limit in Hlt
    by (unfold counted; lia).
  congruence.
Qed.

(** * The claims about [agentLoop] *)

Section Claims.

Context {TResponse TContext Thrown World : Type}.

#[local] Abbreviation Options :=
  (AgentLoopOptions (TResponse := TResponse) (TContext := TContext)
                    (Thrown := Thrown) (World := World)).

(** Every run of [agentLoop] is a run of its loop from the initial values
    of the three variables. *)
Lemma agentLoop_run (fuel : nat) (options : Options) (w : World) :
  loop_run (llmCaller options) (stopCondition options)
           (maxLoops_or_default options) (updateContext options)
           (initialContext options) None 0 w (agentLoop fuel options w).
Proof. apply loop_sound. Qed.

(** When the very first test [0 < maxLoops] fails, nothing is called. *)
Lemma agentLoop_no_iteration (fuel : nat) (options : Options) (w : World) :
  number_lt 0 (maxLoops_or_default options) = false ->
  agentLoop fuel options w
  = {| outcome := Returned {| finalContext := initialContext options;
                              lastResponse := None;
                              reason := max_loops;
                              iterations := 0 |};
       world := w;
       calls := [] |}.
Proof. intros Hlt. unfold agentLoop. now apply loop_max_loops. Qed.


(** C4, as amended.  When [agentLoop] returns, [iterations] is the number
    of [llmCaller] invocations made, as far as the counter goes: capped at
    [2^53], and exact whenever [maxLoops] is not above [2^53].  It is not
    negative, and it is [0] or [iterations - 1 < maxLoops]; so for an
    integer bound [iterations <= max 0 maxLoops]. *)
Theorem C4_iterations_counts_llmCaller
        (fuel : nat) (options : Options) (w : World) (res : AgentLoopResult) :
  outcome (agentLoop fuel options w) = Returned res ->
  iterations res
  = counted (invocations is_llmCaller (calls (agentLoop fuel options w)))
  /\ (number_lt counter_limit (maxLoops_or_default options) = false ->
      iterations res
      = invocations is_llmCaller (calls (agentLoop fuel options w)))
  /\ (0 <= iterations res)%Z
  /\ (iterations res = 0%Z
      \/ number_lt (iterations res - 1) (maxLoops_or_default options) = true)
  /\ forall z, number_is_Z (maxLoops_or_default options) z ->
               (iterations res <= Z.max 0 z)%Z.
Proof.
  intros Hres.
  pose proof (loop_run_iterations (agentLoop_run fuel options w) Hres) as Hit.
  pose proof (loop_run_bound (agentLoop_run fuel options w)) as Hbound.
  pose proof (invocations_nonneg is_llmCaller
                (calls (agentLoop fuel options w))) as Hnonneg.
  rewrite counter_after_zero in Hit by exact Hnonneg.
  pose proof (@counted_tested _ _ Hnonneg Hbound) as Htested.
  rewrite <- Hit in Htested.
  assert (Hpos : (0 <= iterations res)%Z)
    by (rewrite Hit; unfold counted, counter_limit; lia).
  repeat split; [exact Hit | | lia | exact Htested | ].
  - intros Hlimit. rewrite Hit. now apply counted_exact with (m := maxLoops_or_default options).
  - intros z Hz. apply number_lt_passes with (m := maxLoops_or_default options);
      [exact Hz | exact Hpos | exact Htested].
Qed.

(** C5.  With [maxLoops] equal to [0], [agentLoop] calls nothing and
    returns at once the initial context, no response, the reason
    [max_loops] and [0] iterations. *)
Theorem C5_zero_maxLoops
        (fuel : nat) (options : Options) (w : World) (bound : number) :
  maxLoops options = Some bound ->
  number_is_Z bound 0 ->
  agentLoop fuel options w
  = {| outcome := Returned {| finalContext := initialContext options;
                              lastResponse := None;
                              reason := max_loops;
                              iterations := 0 |};
       world := w;
       calls := [] |}.
Proof.
  intros Hbound Hzero. apply agentLoop_no_iteration.
  unfold maxLoops_or_default. rewrite Hbound.
  now rewrite number_lt_is_Z with (z := 0%Z).
Qed.

(** C6.  Without [updateContext], every call receives the initial context
    and the context returned is the initial one. *)
Theorem C6_context_unchanged_without_updateContext
        (fuel : nat) (options : Options) (w : World) :
  updateContext options = None ->
  Forall (fun c => call_context c = initialContext options)
         (calls (agentLoop fuel options w))
  /\ forall res, outcome (agentLoop fuel options w) = Returned res ->
                 finalContext res = initialContext options.
Proof.
  intros Hnone. exact (loop_run_unchanged Hnone (agentLoop_run fuel options w)).
Qed.

(** C7, as amended.  When [agentLoop] returns, [lastResponse] is the
    response of the latest [llmCaller] invocation: none was assigned to it
    exactly when [iterations] is [0].  So its value is [undefined] exactly
    when [iterations] is [0] or that response is itself [undefined]; for a
    responder that never resolves with [undefined], exactly when
    [iterations] is [0]. *)
Theorem C7_lastResponse
        (undefined_response : TResponse -> bool)
        (fuel : nat) (options : Options) (w : World) (res : AgentLoopResult) :
  outcome (agentLoop fuel options w) = Returned res ->
  lastResponse res
  = latest_response (calls (agentLoop fuel options w)) None
  /\ (lastResponse res = None <-> iterations res = 0%Z)
  /\ (is_undefined undefined_response (lastResponse res) = true
      <-> iterations res = 0%Z
          \/ exists response,
              latest_response (calls (agentLoop fuel options w)) None
              = Some response
              /\ undefined_response response = true)
  /\ ((forall response, undefined_response response = false) ->
      (is_undefined undefined_response (lastResponse res) = true
       <-> iterations res = 0%Z)).
Proof.
  intros Hres.
  destruct (loop_run_lastResponse (agentLoop_run fuel options w) Hres)
    as [Hlatest Hnone].
  assert (Hiff : lastResponse res = None <-> iterations res = 0%Z)
    by (apply Hnone; [lia | tauto]).
  rewrite <- Hlatest.
  repeat split; try apply Hiff.
  - destruct (lastResponse res) as [response | ]; cbn.
    + intros Hu. right. now exists response.
    + intros _. left. now apply Hiff.
  - intros [Hzero | [response [Hsome Hu]]].
    + apply Hiff in Hzero. now rewrite Hzero.
    + now rewrite Hsome.
  - destruct (lastResponse res) as [response | ] eqn:Hlast; cbn.
    + rewrite H. discriminate.
    + intros _. now apply Hiff.
  - intros Hzero. apply Hiff in Hzero. now rewrite Hzero.
Qed.

(** C8.  When a callback invocation rejects, no further callback is
    invoked and [agentLoop] throws the very value it was rejected with: it
    returns no result, and more fuel gives the same run. *)
Theorem C8_rejection_propagates
        (fuel : nat) (options : Options) (w : World)
        (pre post : list call) (c : call) (e : Thrown) :
  calls (agentLoop fuel options w) = pre ++ c :: post ->
  call_rejection c = Some e ->
  post = []
  /\ outcome (agentLoop fuel options w) = Threw e
  /\ forall fuel', (fuel <= fuel')%nat ->
                   agentLoop fuel' options w = agentLoop fuel options w.
Proof.
  intros Hcalls Hc.
  assert (Hends : ends_run c = true).
  { destruct c as [? [ | | ] | ? ? [ | | ] | ? ? [ | | ]]; now cbn in *. }
  destruct (loop_run_ends (agentLoop_run fuel options w) _ _ _ Hcalls Hends)
    as [Hpost Hout].
  assert (Hthrew : outcome (agentLoop fuel options w) = Threw e).
  { rewrite Hout.
    destruct c as [? [ | | ] | ? ? [ | | ] | ? ? [ | | ]]; cbn in *;
      congruence. }
  repeat split; [exact Hpost | exact Hthrew | ].
  intros fuel' Hle. apply loop_fuel_irrelevant; [ | exact Hle].
  unfold finished. fold (agentLoop fuel options w). now rewrite Hthrew.
Qed.

(** C10.  A negative [maxLoops] is accepted and behaves as [0] does:
    nothing is called and [agentLoop] returns the initial context, no
    response, the reason [max_loops] and [0] iterations. *)
Theorem C10_negative_maxLoops
        (fuel : nat) (options : Options) (w : World) (bound : number) :
  maxLoops options = Some bound ->
  number_negative bound ->
  agentLoop fuel options w
  = {| outcome := Returned {| finalContext := initialContext options;
                              lastResponse := None;
                              reason := max_loops;
                              iterations := 0 |};
       world := w;
       calls := [] |}
  /\ agentLoop fuel options w
     = agentLoop fuel (with_maxLoops options (Some (number_of_Z 0))) w.
Proof.
  intros Hbound Hneg.
  rewrite (agentLoop_no_iteration
             fuel (with_maxLoops options (Some (number_of_Z 0))) w eq_refl).
  rewrite agentLoop_no_iteration; [split; reflexivity | ].
  unfold maxLoops_or_default. rewrite Hbound.
  now apply number_lt_negative.
Qed.

(** C1, as amended.  When the first [k - 1] iterations complete with
    [stopCondition] answering [false] and on iteration [k], with
    [k <= maxLoops], it answers [true], [agentLoop] returns the context
    and the response of iteration [k] with the reason [stop_condition],
    after [k] invocations of [llmCaller] and, when [updateContext] is
    supplied, [k - 1] invocations of it (none when it is omitted).  The
    [iterations] returned are [k] as long as [k <= 2^53], where the counter
    stays. *)
Theorem C1_stop_condition_on_iteration_k
        (options : Options) (w : World) (k : nat)
        (context : TContext) (last : option TResponse) (w' : World)
        (response : TResponse) (w1 w2 : World) :
  (1 <= k)%nat ->
  number_le (Z.of_nat k) (maxLoops_or_default options) = true ->
  nonstop_iterations options (k - 1) w = Some (context, last, w') ->
  llmCaller options context w' = (Fulfilled response, w1) ->
  stopCondition options response context w1 = (Fulfilled true, w2) ->
  forall fuel, (k <= fuel)%nat ->
    outcome (agentLoop fuel options w)
    = Returned {| finalContext := context;
                  lastResponse := Some response;
                  reason := stop_condition;
                  iterations := counted (Z.of_nat k) |}
    /\ world (agentLoop fuel options w) = w2
    /\ invocations is_llmCaller (calls (agentLoop fuel options w))
       = Z.of_nat k
    /\ invocations is_updateContext (calls (agentLoop fuel options w))
       = match updateContext options with
         | Some _ => (Z.of_nat k - 1)%Z
         | None => 0%Z
         end.
Proof.
  intros Hk Hle Hnonstop Hllm Hstop fuel Hfuel.
  assert (Hlast : number_lt (Z.of_nat k - 1) (maxLoops_or_default options)
                  = true).
  { revert Hle. apply number_le_lt. lia. }
  assert (Htests : forall passes,
             (0 <= passes <= Z.of_nat k - 1)%Z ->
             number_lt (counter_after 0 passes) (maxLoops_or_default options)
             = true).
  { intros passes Hpasses. revert Hlast. apply number_lt_mono.
    pose proof (counter_after_le 0 (passes := passes)). lia. }
  destruct (@loop_nonstop _ _ _ _ _ _ (maxLoops_or_default options) _
                          _ _ _ 0%Z _ _ _ _ Hnonstop)
    with (fuel := (fuel - (k - 1))%nat) as (cs & Hrun & Hl & Hu).
  { destruct (Nat.eq_dec (k - 1) 0) as [Hone | Hmore]; [now left | right].
    apply Htests. lia. }
  replace (k - 1 + (fuel - (k - 1)))%nat with fuel in Hrun by lia.
  destruct (fuel - (k - 1))%nat as [ | fuel'] eqn:Hrest; [lia | ].
  erewrite loop_stop_condition in Hrun;
    [ | apply Htests; lia | eassumption | eassumption ].
  unfold agentLoop. rewrite Hrun. cbn [prepend outcome world calls].
  rewrite !invocations_app, Hl, Hu, llmCaller_in_pass, updateContext_in_pass.
  repeat split.
  - do 2 f_equal. unfold increment, counter_after, counted, counter_limit.
    destruct (Z.ltb_spec (Z.min (0 + Z.of_nat (k - 1))
                                (Z.max 0 9007199254740992))
                         9007199254740992); lia.
  - lia.
  - destruct (updateContext options); lia.
Qed.

(** C2, as amended.  When [maxLoops] (10 by default) is the natural number
    [n], not above [2^53], and the first [n] iterations complete with
    [stopCondition] answering [false], [agentLoop] returns the context and
    the response they end with, the reason [max_loops] and
    [iterations = n], after [n] invocations of [llmCaller] and, when
    [updateContext] is supplied, [n] invocations of it, the last of them
    after the final test of [stopCondition]. *)
Theorem C2_max_loops_reached
        (options : Options) (w : World) (n : nat)
        (context : TContext) (last : option TResponse) (w' : World) :
  number_is_Z (maxLoops_or_default options) (Z.of_nat n) ->
  (Z.of_nat n <= counter_limit)%Z ->
  nonstop_iterations options n w = Some (context, last, w') ->
  forall fuel, (n <= fuel)%nat ->
    outcome (agentLoop fuel options w)
    = Returned {| finalContext := context;
                  lastResponse := last;
                  reason := max_loops;
                  iterations := Z.of_nat n |}
    /\ world (agentLoop fuel options w) = w'
    /\ invocations is_llmCaller (calls (agentLoop fuel options w))
       = Z.of_nat n
    /\ invocations is_updateContext (calls (agentLoop fuel options w))
       = match updateContext options with
         | Some _ => Z.of_nat n
         | None => 0%Z
         end.
Proof.
  intros Hbound Hlimit Hnonstop fuel Hfuel.
  assert (Hcounter : forall passes,
             (0 <= passes <= Z.of_nat n)%Z -> counter_after 0 passes = passes).
  { intros passes Hpasses. unfold counter_after. lia. }
  destruct (@loop_nonstop _ _ _ _ _ _ (maxLoops_or_default options) _
                          _ _ _ 0%Z _ _ _ _ Hnonstop)
    with (fuel := (fuel - n)%nat) as (cs & Hrun & Hl & Hu).
  { destruct n; [now left | right]. rewrite Hcounter by lia.
    rewrite number_lt_is_Z with (z := Z.of_nat (S n)) by exact Hbound.
    apply Z.ltb_lt. lia. }
  replace (n + (fuel - n))%nat with fuel in Hrun by lia.
  rewrite Hcounter in Hrun by lia.
  rewrite loop_max_loops with (it := Z.of_nat n) in Hrun.
  2: { rewrite number_lt_is_Z with (z := Z.of_nat n) by exact Hbound.
       apply Z.ltb_ge. lia. }
  unfold agentLoop. rewrite Hrun. cbn [prepend outcome world calls].
  rewrite !invocations_app, Hl, Hu, !invocations_nil.
  repeat split.
  - lia.
  - destruct (updateContext options); lia.
Qed.

(** C9, as amended.  When the callbacks terminate and [maxLoops] is not
    above [2^53] (so not [Infinity]), [agentLoop] terminates: from some
    amount of fuel on the run is over, always the same, and it has returned
    or thrown.  The number [n] of [llmCaller] invocations is [0] or
    satisfies [n - 1 < maxLoops]; so for an integer bound
    [n <= max 0 maxLoops]. *)
Theorem C9_agentLoop_terminates (options : Options) (w : World) :
  callbacks_terminate options ->
  number_lt counter_limit (maxLoops_or_default options) = false ->
  exists fuel0, forall fuel, (fuel0 <= fuel)%nat ->
    terminated (agentLoop fuel options w)
    /\ agentLoop fuel options w = agentLoop fuel0 options w
    /\ (invocations is_llmCaller (calls (agentLoop fuel options w)) = 0%Z
        \/ number_lt
             (invocations is_llmCaller (calls (agentLoop fuel options w)) - 1)
             (maxLoops_or_default options) = true)
    /\ forall z, number_is_Z (maxLoops_or_default options) z ->
         (invocations is_llmCaller (calls (agentLoop fuel options w))
          <= Z.max 0 z)%Z.
Proof.
  intros (Hllm & Hstop & Hupd) Hlimit.
  assert (HB : exists B : nat, Z.of_nat B = counter_limit)
    by (exists (Z.to_nat counter_limit); now apply Z2Nat.id).
  destruct HB as [B HB].
  assert (Hterm : forall fuel, (B <= fuel)%nat ->
                               terminated (agentLoop fuel options w)).
  { intros fuel Hle. apply loop_terminates; try assumption.
    replace (counter_after 0 (Z.of_nat fuel)) with counter_limit;
      [exact Hlimit | ].
    unfold counter_after. assert (0 < counter_limit)%Z by reflexivity. lia. }
  exists B. intros fuel Hle.
  pose proof (loop_run_bound (agentLoop_run fuel options w)) as Hbound.
  pose proof (invocations_nonneg is_llmCaller
                (calls (agentLoop fuel options w))) as Hnonneg.
  pose proof (@counted_exact _ _ Hnonneg Hbound Hlimit) as Hexact.
  pose proof (@counted_tested _ _ Hnonneg Hbound) as Htested.
  rewrite Hexact in Htested.
  repeat split.
  - now apply Hterm.
  - apply loop_fuel_irrelevant; [ | exact Hle].
    specialize (Hterm _ (Nat.le_refl _)). unfold terminated, agentLoop in Hterm.
    unfold finished. now destruct (outcome _).
  - exact Htested.
  - intros z Hz.
    apply number_lt_passes with (m := maxLoops_or_default options);
      [exact Hz | exact Hnonneg | exact Htested].
Qed.

End Claims.


(** * The test suite *)

Import Examples.

#[local] Open Scope string_scope.

(** ** The expectations of [src/index.test.ts] *)

Example runs_until_stop_condition_is_met :
  outcome (agentLoop 10 until_stop 0%nat)
  = Returned {| finalContext := 0%nat;
                lastResponse := Some "stop";
                reason := stop_condition;
                iterations := 3 |}
  /\ world (agentLoop 10 until_stop 0%nat) = 3%nat.
Proof. split; reflexivity. Qed.

Example stops_when_max_loops_is_reached :
  outcome (agentLoop 10 (never_stopping (Some (number_of_Z 5))) 0%nat)
  = Returned {| finalContext := 0%nat;
                lastResponse := Some "response";
                reason := max_loops;
                iterations := 5 |}
  /\ world (agentLoop 10 (never_stopping (Some (number_of_Z 5))) 0%nat)
     = 5%nat.
Proof. split; reflexivity. Qed.

Example updates_context_between_iterations :
  outcome (agentLoop 10 (counting None) 0%nat)
  = Returned {| finalContext := 3%nat;
                lastResponse := Some "response";
                reason := stop_condition;
                iterations := 4 |}.
Proof. reflexivity. Qed.

Example handles_async_stop_condition_and_update_context :
  agentLoop 10 stops_at_once 0%nat
  = {| outcome := Returned {| finalContext := 0%nat;
                              lastResponse := Some "response";
                              reason := stop_condition;
                              iterations := 1 |};
       world := 1%nat;
       calls := [call_llmCaller 0%nat (Fulfilled "response");
                 call_stopCondition "response" 0%nat (Fulfilled true)] |}.
Proof. reflexivity. Qed.

(** A bound that is not an integer lets one more pass start: with
    [maxLoops: 2.5] the third test, [2 < 2.5], still succeeds. *)
Example fractional_maxLoops :
  outcome (agentLoop 10 (never_stopping (Some (Finite (5 # 2)))) 0%nat)
  = Returned {| finalContext := 0%nat;
                lastResponse := Some "response";
                reason := max_loops;
                iterations := 3 |}.
Proof. reflexivity. Qed.

(** Every comparison with [NaN] is false: no pass starts. *)
Example NaN_maxLoops :
  agentLoop 10 (never_stopping (Some NaN)) 0%nat
  = {| outcome := Returned {| finalContext := 0%nat;
                              lastResponse := None;
                              reason := max_loops;
                              iterations := 0 |};
       world := 0%nat;
       calls := [] |}.
Proof. reflexivity. Qed.

(** ** The claims on these configurations *)

(** C1 on 'should update context between iterations': the counter reaches
    [3] after three passes, so the stop condition holds on iteration 4. *)
Lemma C1_witness :
  outcome (agentLoop 4 (counting None) 0%nat)
  = Returned {| finalContext := 3%nat;
                lastResponse := Some "response";
                reason := stop_condition;
                iterations := 4 |}
  /\ world (agentLoop 4 (counting None) 0%nat) = 4%nat
  /\ invocations is_llmCaller (calls (agentLoop 4 (counting None) 0%nat)) = 4%Z
  /\ invocations is_updateContext (calls (agentLoop 4 (counting None) 0%nat))
     = 3%Z.
Proof.
  apply (@C1_stop_condition_on_iteration_k
           _ _ _ _ (counting None) 0%nat 4 3%nat (Some "response") 3%nat
           "response" 4%nat 4%nat);
    solve [ reflexivity | lia ].
Defined.

(** C1 as stated fails on 'should run until stop condition is met': the
    stop condition first holds on iteration 3, and [updateContext], which
    the configuration omits, is invoked [0] times, not [3 - 1]. *)
Lemma C1_counterexample :
  nonstop_iterations until_stop 2 0%nat
  = Some (0%nat, Some "response2", 2%nat)
  /\ llmCaller until_stop 0%nat 2%nat = (Fulfilled "stop", 3%nat)
  /\ stopCondition until_stop "stop" 0%nat 3%nat = (Fulfilled true, 3%nat)
  /\ number_le 3 (maxLoops_or_default until_stop) = true
  /\ outcome (agentLoop 3 until_stop 0%nat)
     = Returned {| finalContext := 0%nat;
                   lastResponse := Some "stop";
                   reason := stop_condition;
                   iterations := 3 |}
  /\ invocations is_updateContext (calls (agentLoop 3 until_stop 0%nat))
     <> (3 - 1)%Z.
Proof. repeat split. discriminate. Qed.

(** The counter of a run whose stop condition never holds stays within
    [2^53], so a bound above [2^53] is never reached. *)
Lemma never_stopping_above_limit (bound : number) (fuel : nat) :
  number_lt counter_limit bound = true ->
  forall context last it w,
    (it <= counter_limit)%Z ->
    outcome (loop (llmCaller (never_stopping (Some bound)))
                  (stopCondition (never_stopping (Some bound)))
                  bound None fuel context last it w)
    = OutOfFuel.
Proof.
  intros Hbound.
  induction fuel as [ | fuel IH]; intros context last it w Hit;
    assert (Hlt : number_lt it bound = true)
      by (revert Hbound; now apply number_lt_mono).
  - now rewrite loop_out_of_fuel.
  - erewrite loop_next_unchanged by (eassumption || reflexivity).
    apply IH. unfold increment.
    destruct (Z.ltb_spec it counter_limit); lia.
Qed.

(** C2 on a stop condition that never holds, with the default bound and an
    [updateContext], which is invoked after each of the ten tests. *)
Lemma C2_witness :
  outcome (agentLoop 10 (never_stopping_counting None) 0%nat)
  = Returned {| finalContext := 10%nat;
                lastResponse := Some "response";
                reason := max_loops;
                iterations := 10 |}
  /\ world (agentLoop 10 (never_stopping_counting None) 0%nat) = 10%nat
  /\ invocations is_llmCaller
       (calls (agentLoop 10 (never_stopping_counting None) 0%nat))
     = 10%Z
  /\ invocations is_updateContext
       (calls (agentLoop 10 (never_stopping_counting None) 0%nat))
     = 10%Z.
Proof.
  apply (@C2_max_loops_reached
           _ _ _ _ (never_stopping_counting None) 0%nat 10
           10%nat (Some "response") 10%nat);
    solve [ reflexivity | lia | discriminate ].
Defined.

(** C2 as stated fails for [maxLoops: -1]: the stop condition never holds,
    and [agentLoop] returns with [iterations = 0], which is not
    [maxLoops].  It fails for [maxLoops: 2^53 + 2] as well: the stop
    condition never holds, and [agentLoop] does not return. *)
Lemma C2_counterexample :
  (forall response context w,
      stopCondition (never_stopping (Some (number_of_Z (-1))))
                    response context w = (Fulfilled false, w))
  /\ (forall fuel,
         outcome (agentLoop fuel (never_stopping (Some (number_of_Z (-1))))
                            0%nat)
         = Returned {| finalContext := 0%nat;
                       lastResponse := None;
                       reason := max_loops;
                       iterations := 0 |})
  /\ ~ number_is_Z (number_of_Z (-1)) 0
  /\ (forall fuel,
         outcome (agentLoop fuel
                            (never_stopping
                               (Some (number_of_Z 9007199254740994)))
                            0%nat)
         = OutOfFuel).
Proof.
  repeat split.
  - intros fuel. now rewrite agentLoop_no_iteration.
  - cbn. unfold Qeq. cbn. discriminate.
  - intros fuel. unfold agentLoop.
    cbn [maxLoops_or_default maxLoops never_stopping updateContext].
    now apply never_stopping_above_limit.
Qed.


(** C4 on 'should stop when max loops is reached'. *)
Lemma C4_witness :
  (5 = counted
         (invocations
            is_llmCaller
            (calls (agentLoop 7 (never_stopping (Some (number_of_Z 5)))
                              0%nat))))%Z
  /\ (number_lt counter_limit (number_of_Z 5) = false ->
      5%Z = invocations
              is_llmCaller
              (calls (agentLoop 7 (never_stopping (Some (number_of_Z 5)))
                                0%nat)))
  /\ (0 <= 5)%Z
  /\ (5%Z = 0%Z \/ number_lt (5 - 1) (number_of_Z 5) = true)
  /\ forall z, number_is_Z (number_of_Z 5) z -> (5 <= Z.max 0 z)%Z.
Proof.
  exact (@C4_iterations_counts_llmCaller
           _ _ _ _ 7 (never_stopping (Some (number_of_Z 5))) 0%nat
           {| finalContext := 0%nat; lastResponse := Some "response";
              reason := max_loops; iterations := 5 |} eq_refl).
Defined.

(** C4 as stated fails for [maxLoops: -1]: [agentLoop] returns with
    [iterations = 0], and [0 <= maxLoops] does not hold. *)
Lemma C4_counterexample :
  (forall fuel,
      outcome (agentLoop fuel (counting (Some (number_of_Z (-1)))) 0%nat)
      = Returned {| finalContext := 0%nat;
                    lastResponse := None;
                    reason := max_loops;
                    iterations := 0 |})
  /\ number_le 0 (number_of_Z (-1)) = false.
Proof.
  split; [ | reflexivity].
  intros fuel. now rewrite agentLoop_no_iteration.
Qed.

(** C5 with [maxLoops: 0]. *)
Lemma C5_witness :
  agentLoop 3 (counting (Some (number_of_Z 0))) 0%nat
  = {| outcome := Returned {| finalContext := 0%nat;
                              lastResponse := None;
                              reason := max_loops;
                              iterations := 0 |};
       world := 0%nat;
       calls := [] |}.
Proof.
  apply (@C5_zero_maxLoops _ _ _ _ 3 (counting (Some (number_of_Z 0))) 0%nat
                           (number_of_Z 0) eq_refl).
  reflexivity.
Defined.

(** C6 on 'should run until stop condition is met', which has no
    [updateContext]. *)
Lemma C6_witness :
  Forall (fun c => call_context c = 0%nat)
         (calls (agentLoop 3 until_stop 0%nat))
  /\ forall res, outcome (agentLoop 3 until_stop 0%nat) = Returned res ->
                 finalContext res = 0%nat.
Proof.
  exact (@C6_context_unchanged_without_updateContext
           _ _ _ _ 3 until_stop 0%nat eq_refl).
Defined.

(** C7 on 'should run until stop condition is met': the last response is
    ['stop'], and no response of this responder is [undefined]. *)
Lemma C7_witness :
  Some "stop" = latest_response (calls (agentLoop 3 until_stop 0%nat)) None
  /\ (Some "stop" = None <-> 3%Z = 0%Z)
  /\ (is_undefined (fun _ : string => false) (Some "stop") = true
      <-> 3%Z = 0%Z
          \/ exists response,
              latest_response (calls (agentLoop 3 until_stop 0%nat)) None
              = Some response
              /\ false = true)
  /\ ((forall response : string, false = false) ->
      (is_undefined (fun _ : string => false) (Some "stop") = true
       <-> 3%Z = 0%Z)).
Proof.
  exact (@C7_lastResponse
           _ _ _ _ (fun _ : string => false) 3 until_stop 0%nat
           {| finalContext := 0%nat; lastResponse := Some "stop";
              reason := stop_condition; iterations := 3 |} eq_refl).
Defined.

(** C7 as stated fails for a responder that resolves with [undefined]:
    after one iteration [lastResponse] is that response, so it is
    [undefined], and [iterations] is [1]. *)
Lemma C7_counterexample :
  outcome (agentLoop 1 resolves_undefined 0%nat)
  = Returned {| finalContext := 0%nat;
                lastResponse := Some None;
                reason := stop_condition;
                iterations := 1 |}
  /\ is_undefined undefined_string (Some None) = true
  /\ 1%Z <> 0%Z.
Proof. repeat split. discriminate. Qed.

(** C8 on a responder whose second invocation rejects. *)
Lemma C8_witness :
  outcome (agentLoop 5 failing 0%nat) = Threw "overloaded"
  /\ forall fuel', (5 <= fuel')%nat ->
                   agentLoop fuel' failing 0%nat = agentLoop 5 failing 0%nat.
Proof.
  apply (@C8_rejection_propagates
           _ _ _ _ 5 failing 0%nat
           [call_llmCaller 0%nat (Fulfilled "response");
            call_stopCondition "response" 0%nat (Fulfilled false);
            call_updateContext "response" 0%nat (Fulfilled 1%nat)]
           [] (call_llmCaller 1%nat (Rejected "overloaded")) "overloaded"
           eq_refl eq_refl).
Defined.

(** C10 with [maxLoops: -1]. *)
Lemma C10_witness :
  agentLoop 3 (counting (Some (number_of_Z (-1)))) 0%nat
  = {| outcome := Returned {| finalContext := 0%nat;
                              lastResponse := None;
                              reason := max_loops;
                              iterations := 0 |};
       world := 0%nat;
       calls := [] |}
  /\ agentLoop 3 (counting (Some (number_of_Z (-1)))) 0%nat
     = agentLoop 3 (with_maxLoops (counting (Some (number_of_Z (-1))))
                                  (Some (number_of_Z 0))) 0%nat.
Proof.
  apply (@C10_negative_maxLoops
           _ _ _ _ 3 (counting (Some (number_of_Z (-1)))) 0%nat
           (number_of_Z (-1)) eq_refl).
  reflexivity.
Defined.

(** The callbacks of the test configurations terminate. *)
Lemma never_stopping_terminate (bound : option number) :
  callbacks_terminate (never_stopping bound).
Proof. repeat split; try discriminate. Qed.

Lemma counting_terminate (bound : option number) :
  callbacks_terminate (counting bound).
Proof.
  repeat split; try discriminate.
  intros f Hf. injection Hf as <-. discriminate.
Qed.

(** With [maxLoops: Infinity] and a stop condition that never holds, the
    loop is never over. *)
Lemma never_stopping_Infinity (fuel : nat) :
  forall context last it w,
    outcome (loop (llmCaller (never_stopping (Some Infinity)))
                  (stopCondition (never_stopping (Some Infinity)))
                  Infinity None fuel context last it w)
    = OutOfFuel.
Proof.
  induction fuel as [ | fuel IH]; intros context last it w.
  - reflexivity.
  - erewrite loop_next_unchanged by reflexivity. apply IH.
Qed.

(** C9 on 'should update context between iterations'. *)
Lemma C9_witness :
  exists fuel0, forall fuel, (fuel0 <= fuel)%nat ->
    terminated (agentLoop fuel (counting None) 0%nat)
    /\ agentLoop fuel (counting None) 0%nat
       = agentLoop fuel0 (counting None) 0%nat
    /\ (invocations is_llmCaller (calls (agentLoop fuel (counting None) 0%nat))
        = 0%Z
        \/ number_lt
             (invocations is_llmCaller
                          (calls (agentLoop fuel (counting None) 0%nat)) - 1)
             (number_of_Z 10) = true)
    /\ forall z, number_is_Z (number_of_Z 10) z ->
         (invocations is_llmCaller (calls (agentLoop fuel (counting None) 0%nat))
          <= Z.max 0 z)%Z.
Proof.
  apply (@C9_agentLoop_terminates _ _ _ _ (counting None) 0%nat).
  - exact (counting_terminate None).
  - reflexivity.
Defined.

(** C9 as stated fails three times.  With [maxLoops: Infinity] and a stop
    condition that never holds the callbacks terminate and [agentLoop] does
    not; nor does it with the finite [maxLoops: 2^53 + 2], which the
    counter never reaches.  With [maxLoops: -1] it terminates after [0]
    invocations of [llmCaller], and [0 <= maxLoops] does not hold. *)
Lemma C9_counterexample :
  (callbacks_terminate (never_stopping (Some Infinity))
   /\ forall fuel,
       ~ terminated (agentLoop fuel (never_stopping (Some Infinity)) 0%nat))
  /\ (callbacks_terminate (never_stopping (Some (number_of_Z (-1))))
      /\ (forall fuel,
             terminated (agentLoop fuel (never_stopping
                                           (Some (number_of_Z (-1)))) 0%nat)
             /\ invocations
                  is_llmCaller
                  (calls (agentLoop fuel (never_stopping
                                            (Some (number_of_Z (-1)))) 0%nat))
                = 0%Z)
      /\ number_le 0 (number_of_Z (-1)) = false)
  /\ (callbacks_terminate
        (never_stopping (Some (number_of_Z 9007199254740994)))
      /\ forall fuel,
          ~ terminated
              (agentLoop fuel
                         (never_stopping
                            (Some (number_of_Z 9007199254740994)))
                         0%nat)).
Proof.
  split; [split | split; [split; [ | split] | split]].
  - apply never_stopping_terminate.
  - intros fuel. unfold terminated, agentLoop.
    cbn [maxLoops_or_default maxLoops never_stopping updateContext].
    now rewrite never_stopping_Infinity.
  - apply never_stopping_terminate.
  - intros fuel. now rewrite agentLoop_no_iteration.
  - reflexivity.
  - apply never_stopping_terminate.
  - intros fuel. unfold terminated, agentLoop.
    cbn [maxLoops_or_default maxLoops never_stopping updateContext].
    now rewrite never_stopping_above_limit.
Qed.

(** * Further properties of [agentLoop] *)

(** ** More of what holds of every run *)

Section LoopOrder.

Context {TResponse TContext Thrown World : Type}.

#[local] Abbreviation Async := (Async (Thrown := Thrown) (World := World)).

Variable llm : TContext -> Async TResponse.
Variable stop : TResponse -> TContext -> Async bool.
Variable m : number.
Variable upd : option (TResponse -> TContext -> Async TContext).

#[local] Abbreviation runs := (loop_run llm stop m upd).

(** The calls are made in program order, each on what the call before it
    produced. *)
Lemma loop_run_in_order context last it w rn :
  runs context last it w rn ->
  forall initial previous,
    follows_in_order (supplied upd) initial previous
                     (call_llmCaller context Pending) ->
    in_program_order (supplied upd) initial previous (calls rn).
Proof.
  induction 1 as [ | | | | | ? ? ? ? ? ? ? ? ? ? _ _ _ Hupd
                 | ? ? ? ? ? ? ? ? ? ? ? _ _ _ Hupd _ _ IH
                 | ? ? ? ? ? ? ? ? _ _ _ Hupd _ IH ];
    intros initial previous Hfirst; cbn; repeat split;
    try exact Hfirst; try (now rewrite Hupd).
  - apply IH. cbn. now rewrite Hupd.
  - apply IH. cbn. now rewrite Hupd.
Qed.

(** The context returned is the one the latest [updateContext] call
    produced. *)
Lemma loop_run_context_after context last it w rn :
  runs context last it w rn ->
  forall res, outcome rn = Returned res ->
  finalContext res = context_after context (calls rn).
Proof.
  induction 1 as [ | | ? ? ? ? s | ? ? ? ? ? ? s | | ? ? ? ? ? ? ? ? s
                 | ? ? ? ? ? ? ? ? ? ? ? _ _ _ _ _ _ IH
                 | ? ? ? ? ? ? ? ? _ _ _ _ _ IH ];
    intros res Hres; cbn in Hres;
    try (destruct s; discriminate); try discriminate;
    try (injection Hres as <-; reflexivity).
  - exact (IH _ Hres).
  - exact (IH _ Hres).
Qed.

(** [stopCondition] was invoked once per invocation of [llmCaller], and
    [updateContext] once per pass that did not stop. *)
Lemma loop_run_counts context last it w rn :
  runs context last it w rn ->
  forall res, outcome rn = Returned res ->
  invocations is_stopCondition (calls rn)
  = invocations is_llmCaller (calls rn)
  /\ invocations is_updateContext (calls rn)
     = match upd, reason res with
       | Some _, stop_condition =>
           (invocations is_llmCaller (calls rn) - 1)%Z
       | Some _, max_loops => invocations is_llmCaller (calls rn)
       | None, _ => 0%Z
       end.
Proof.
  induction 1 as [ | | ? ? ? ? s | ? ? ? ? ? ? s | ? ? ? ? ? ? ? Hlt Hllm Hstop
                 | ? ? ? ? ? ? ? ? s
                 | ? ? ? ? ? ? ? ? ? ? ? _ _ _ Hupd _ _ IH
                 | ? ? ? ? ? ? ? ? _ _ _ Hupd _ IH ];
    intros res Hres; cbn in Hres;
    try (destruct s; discriminate); try discriminate.
  - injection Hres as <-. cbn. split; [reflexivity | now destruct upd].
  - injection Hres as <-. cbn. split; [reflexivity | now destruct upd].
  - destruct (IH _ Hres) as [IHs IHu]. cbn [prepend calls].
    rewrite !invocations_app, stopCondition_in_pass, updateContext_in_pass,
      llmCaller_in_pass, IHs, IHu, Hupd.
    split; [lia | destruct (reason res); lia].
  - destruct (IH _ Hres) as [IHs IHu]. cbn [prepend calls].
    rewrite !invocations_app, stopCondition_in_pass, updateContext_in_pass,
      llmCaller_in_pass, IHs, IHu, Hupd.
    split; [lia | destruct (reason res); lia].
Qed.

(** When the bound ends the run, the counter has failed the test and no
    call made was one that ends a run. *)
Lemma loop_run_max_loops context last it w rn :
  runs context last it w rn ->
  forall res, outcome rn = Returned res ->
  reason res = max_loops ->
  number_lt (iterations res) m = false
  /\ Forall (fun c => ends_run c = false) (calls rn).
Proof.
  induction 1 as [ | | ? ? ? ? s | ? ? ? ? ? ? s | | ? ? ? ? ? ? ? ? s
                 | ? ? ? ? ? ? ? ? ? ? ? _ _ _ _ _ _ IH
                 | ? ? ? ? ? ? ? ? _ _ _ _ _ IH ];
    intros res Hres Hreason; cbn in Hres;
    try (destruct s; discriminate); try discriminate;
    try (injection Hres as <-; cbn in Hreason; try discriminate).
  - split; [assumption | constructor].
  - destruct (IH _ Hres Hreason) as [IHlt IHcalls].
    split; [exact IHlt | ]. cbn. repeat constructor. exact IHcalls.
  - destruct (IH _ Hres Hreason) as [IHlt IHcalls].
    split; [exact IHlt | ]. cbn. repeat constructor. exact IHcalls.
Qed.


Section Related.

(** A relation between contexts that every step of [updateContext]
    respects. *)
Variable R : TContext -> TContext -> Prop.
Hypothesis R_refl : forall context, R context context.
Hypothesis R_trans : forall c1 c2 c3, R c1 c2 -> R c2 c3 -> R c1 c3.
Hypothesis R_step :
  forall f, upd = Some f ->
  forall response context w context' w',
    f response context w = (Fulfilled context', w') -> R context context'.

Lemma loop_run_related context last it w rn :
  runs context last it w rn ->
  Forall (fun c => R context (call_context c)) (calls rn)
  /\ forall res, outcome rn = Returned res -> R context (finalContext res).
Proof.
  induction 1 as [ | | ? ? ? ? s | ? ? ? ? ? ? s | | ? ? ? ? ? ? ? f s
                 | ? ? ? ? ? ? ? f ? ? ? _ _ _ Hupd Hf _ IH
                 | ? ? ? ? ? ? ? ? _ _ _ _ _ IH ];
    (split; [ | intros res Hres; cbn in Hres;
                try (destruct s; discriminate); try discriminate;
                try (injection Hres as <-; apply R_refl) ]);
    try (cbn; repeat constructor; apply R_refl).
  - destruct IH as [IH _]. cbn.
    repeat (constructor; [apply R_refl | ]).
    eapply Forall_impl; [ | exact IH]. cbn. intros c Hc.
    eapply R_trans; [ | exact Hc]. eapply R_step; eassumption.
  - destruct IH as [_ IH]. eapply R_trans; [ | exact (IH _ Hres)].
    eapply R_step; eassumption.
  - destruct IH as [IH _]. cbn. repeat (constructor; [apply R_refl | ]).
    exact IH.
  - destruct IH as [_ IH]. exact (IH _ Hres).
Qed.

End Related.

End LoopOrder.

(** ** Runs under two bounds *)

Section TwoBounds.

Context {TResponse TContext Thrown World : Type}.

#[local] Abbreviation Async := (Async (Thrown := Thrown) (World := World)).

Variable llm : TContext -> Async TResponse.
Variable stop : TResponse -> TContext -> Async bool.
Variable upd : option (TResponse -> TContext -> Async TContext).

Section Raised.

(** [m'] lets every pass start that [m] lets start. *)
Variables m m' : number.
Hypothesis raised : forall i, number_lt i m = true -> number_lt i m' = true.

(** A run that the bound did not end is the same under a larger bound. *)
Lemma loop_raise_bound fuel :
  forall context last it w,
    ended_early (loop llm stop m upd fuel context last it w) ->
    loop llm stop m' upd fuel context last it w
    = loop llm stop m upd fuel context last it w.
Proof.
  induction fuel as [ | fuel IH]; intros context last it w Hearly;
    destruct (number_lt it m) eqn:Hlt;
    try (rewrite loop_max_loops in Hearly by assumption; discriminate).
  { rewrite loop_out_of_fuel in Hearly by assumption. destruct Hearly. }
  pose proof (raised _ Hlt) as Hlt'.
  destruct (llm context w) as [s1 w1] eqn:Hllm.
  destruct (unfulfilled s1) eqn:Hs1.
  { now erewrite !loop_llmCaller_fails by eassumption. }
  destruct s1 as [r | | ]; try discriminate.
  destruct (stop r context w1) as [s2 w2] eqn:Hstop.
  destruct (unfulfilled s2) eqn:Hs2.
  { now erewrite !loop_stopCondition_fails by eassumption. }
  destruct s2 as [[ | ] | | ]; try discriminate.
  { now erewrite !loop_stop_condition by eassumption. }
  assert (Hcases : (exists f, upd = Some f) \/ upd = None)
    by (destruct upd; eauto).
  destruct Hcases as [[f Hupd] | Hupd].
  - destruct (f r context w2) as [s3 w3] eqn:Hf.
    destruct (unfulfilled s3) eqn:Hs3.
    { now erewrite !loop_updateContext_fails by eassumption. }
    destruct s3 as [context' | | ]; try discriminate.
    erewrite loop_next_updated in Hearly by eassumption.
    erewrite !loop_next_updated by eassumption.
    f_equal. apply IH. exact Hearly.
  - erewrite loop_next_unchanged in Hearly by eassumption.
    erewrite !loop_next_unchanged by eassumption.
    f_equal. apply IH. exact Hearly.
Qed.

(** A run that the bound ended goes on, under a larger bound, from where
    it ended. *)
Lemma loop_extend fuel :
  forall context last it w res,
    outcome (loop llm stop m upd fuel context last it w) = Returned res ->
    reason res = max_loops ->
    forall fuel',
      finished (loop llm stop m' upd fuel' (finalContext res)
                     (lastResponse res) (iterations res)
                     (world (loop llm stop m upd fuel context last it w))) ->
      loop llm stop m' upd (fuel + fuel') context last it w
      = prepend (calls (loop llm stop m upd fuel context last it w))
                (loop llm stop m' upd fuel' (finalContext res)
                      (lastResponse res) (iterations res)
                      (world (loop llm stop m upd fuel context last it w))).
Proof.
  assert (Hexit : forall (fuel : nat) context last it w res,
             number_lt it m = false ->
             outcome (loop llm stop m upd fuel context last it w)
             = Returned res ->
             forall fuel',
               finished (loop llm stop m' upd fuel' (finalContext res)
                              (lastResponse res) (iterations res)
                              (world (loop llm stop m upd fuel context last
                                           it w))) ->
               loop llm stop m' upd (fuel + fuel') context last it w
               = prepend (calls (loop llm stop m upd fuel context last it w))
                         (loop llm stop m' upd fuel' (finalContext res)
                               (lastResponse res) (iterations res)
                               (world (loop llm stop m upd fuel context last
                                            it w)))).
  { intros fuel0 context last it w res Hlt.
    rewrite (@loop_max_loops _ _ _ _ llm stop m upd fuel0 context last it w Hlt).
    intros Hres. injection Hres as <-. cbn. intros fuel' Hfin.
    rewrite prepend_nil. apply loop_fuel_irrelevant; [exact Hfin | lia]. }
  induction fuel as [ | fuel IH]; intros context last it w res Hres Hreason;
    destruct (number_lt it m) eqn:Hlt;
    try (now apply Hexit).
  { rewrite loop_out_of_fuel in Hres by assumption. discriminate. }
  pose proof (raised _ Hlt) as Hlt'.
  destruct (llm context w) as [s1 w1] eqn:Hllm.
  destruct (unfulfilled s1) eqn:Hs1.
  { erewrite loop_llmCaller_fails in Hres by eassumption.
    destruct s1; discriminate. }
  destruct s1 as [r | | ]; try discriminate.
  destruct (stop r context w1) as [s2 w2] eqn:Hstop.
  destruct (unfulfilled s2) eqn:Hs2.
  { erewrite loop_stopCondition_fails in Hres by eassumption.
    destruct s2; discriminate. }
  destruct s2 as [[ | ] | | ]; try discriminate.
  { erewrite loop_stop_condition in Hres by eassumption.
    injection Hres as <-. discriminate. }
  assert (Hcases : (exists f, upd = Some f) \/ upd = None)
    by (destruct upd; eauto).
  destruct Hcases as [[f Hupd] | Hupd].
  - destruct (f r context w2) as [s3 w3] eqn:Hf.
    destruct (unfulfilled s3) eqn:Hs3.
    { erewrite loop_updateContext_fails in Hres by eassumption.
      destruct s3; discriminate. }
    destruct s3 as [context' | | ]; try discriminate.
    erewrite loop_next_updated in * by eassumption.
    intros fuel' Hfin. cbn [Nat.add].
    erewrite loop_next_updated by eassumption.
    cbn [prepend outcome world calls] in *.
    rewrite (IH _ _ _ _ _ Hres Hreason _ Hfin).
    now rewrite prepend_prepend.
  - erewrite loop_next_unchanged in * by eassumption.
    intros fuel' Hfin. cbn [Nat.add].
    erewrite loop_next_unchanged by eassumption.
    cbn [prepend outcome world calls] in *.
    rewrite (IH _ _ _ _ _ Hres Hreason _ Hfin).
    now rewrite prepend_prepend.
Qed.

End Raised.

Section Shifted.

(** [m] is to a counter that starts at [iterations first] what [m2] is to a
    counter that starts at [0], and neither counter reaches [2^53] under
    its bound. *)
Variables m m2 : number.
Variable first : AgentLoopResult (TResponse := TResponse)
                                 (TContext := TContext).
Hypothesis shifted :
  forall i, number_lt (iterations first + i) m = number_lt i m2.
Hypothesis first_nonneg : (0 <= iterations first)%Z.
Hypothesis within :
  forall i, number_lt i m2 = true ->
            (iterations first + i < counter_limit)%Z.

Lemma increment_shifted (it : Z) :
  number_lt it m2 = true ->
  increment (iterations first + it) = (iterations first + increment it)%Z.
Proof.
  intros Hlt. pose proof (within _ Hlt) as Hwithin. unfold increment.
  destruct (Z.ltb_spec (iterations first + it) counter_limit),
    (Z.ltb_spec it counter_limit); lia.
Qed.

Lemma loop_shift fuel :
  forall context last it w,
    loop llm stop m upd fuel context
         (match last with
          | Some response => Some response
          | None => lastResponse first
          end)
         (iterations first + it) w
    = {| outcome :=
           resumed first (outcome (loop llm stop m2 upd fuel context last it w));
         world := world (loop llm stop m2 upd fuel context last it w);
         calls := calls (loop llm stop m2 upd fuel context last it w) |}.
Proof.
  induction fuel as [ | fuel IH]; intros context last it w;
    destruct (number_lt it m2) eqn:Hlt;
    pose proof (shifted it) as Hlt'; rewrite Hlt in Hlt';
    try (now rewrite !loop_max_loops by assumption).
  { now rewrite !loop_out_of_fuel by assumption. }
  pose proof (increment_shifted _ Hlt) as Hinc.
  destruct (llm context w) as [s1 w1] eqn:Hllm.
  destruct (unfulfilled s1) eqn:Hs1.
  { erewrite !loop_llmCaller_fails by eassumption. now destruct s1. }
  destruct s1 as [r | | ]; try discriminate.
  destruct (stop r context w1) as [s2 w2] eqn:Hstop.
  destruct (unfulfilled s2) eqn:Hs2.
  { erewrite !loop_stopCondition_fails by eassumption. now destruct s2. }
  destruct s2 as [[ | ] | | ]; try discriminate.
  { erewrite !loop_stop_condition by eassumption. cbn.
    now rewrite Hinc. }
  assert (Hcases : (exists f, upd = Some f) \/ upd = None)
    by (destruct upd; eauto).
  destruct Hcases as [[f Hupd] | Hupd].
  - destruct (f r context w2) as [s3 w3] eqn:Hf.
    destruct (unfulfilled s3) eqn:Hs3.
    { erewrite !loop_updateContext_fails by eassumption. now destruct s3. }
    destruct s3 as [context' | | ]; try discriminate.
    erewrite !loop_next_updated by eassumption.
    rewrite Hinc.
    rewrite (IH context' (Some r) (increment it) w3). reflexivity.
  - erewrite !loop_next_unchanged by eassumption.
    rewrite Hinc.
    rewrite (IH context (Some r) (increment it) w2). reflexivity.
Qed.

End Shifted.

End TwoBounds.

(** ** Histories *)

Section History.

Context {TResponse Message Thrown World : Type}.

Variable llm :
  list Message -> Async (Thrown := Thrown) (World := World) TResponse.
Variable stop :
  TResponse -> list Message
  -> Async (Thrown := Thrown) (World := World) bool.
Variable m : number.
Variable range_error : Thrown.
Variable message_of : TResponse -> Message.


End History.

(** ** Statements about [agentLoop] *)

Section Extras.

Context {TResponse TContext Thrown World : Type}.

#[local] Abbreviation Options :=
  (AgentLoopOptions (TResponse := TResponse) (TContext := TContext)
                    (Thrown := Thrown) (World := World)).

(** X1.  The callbacks are invoked in program order and each on what the
    call before it produced: [llmCaller] first receives [initialContext]
    and afterwards the context the preceding [updateContext] call
    fulfilled with (without [updateContext], the context of the preceding
    pass); [stopCondition] receives the response and the context of the
    [llmCaller] call just before it; [updateContext] is only invoked just
    after a [stopCondition] call that answered [false], with the same
    response and context. *)
Theorem X1_calls_in_program_order
        (fuel : nat) (options : Options) (w : World) :
  in_program_order (supplied (updateContext options))
                   (initialContext options) None
                   (calls (agentLoop fuel options w)).
Proof.
  apply (loop_run_in_order (agentLoop_run fuel options w)). reflexivity.
Qed.

(** X2.  When [agentLoop] returns, [finalContext] is the context that the
    latest [updateContext] call produced, and [initialContext] when
    [updateContext] was never invoked. *)
Theorem X2_finalContext_is_latest_update
        (fuel : nat) (options : Options) (w : World) (res : AgentLoopResult) :
  outcome (agentLoop fuel options w) = Returned res ->
  finalContext res
  = context_after (initialContext options) (calls (agentLoop fuel options w)).
Proof. exact (loop_run_context_after (agentLoop_run fuel options w) (res := res)). Qed.

(** X3.  When [agentLoop] returns, [stopCondition] was invoked exactly as
    often as [llmCaller], and [updateContext], when supplied, once less if
    the reason is [stop_condition] and as often if it is [max_loops].  As
    long as the [iterations] returned are below [2^53], where the counter
    stays, that is [iterations] times for [stopCondition], and
    [iterations - 1] or [iterations] times for [updateContext]. *)
Theorem X3_callback_counts
        (fuel : nat) (options : Options) (w : World) (res : AgentLoopResult) :
  outcome (agentLoop fuel options w) = Returned res ->
  invocations is_stopCondition (calls (agentLoop fuel options w))
  = invocations is_llmCaller (calls (agentLoop fuel options w))
  /\ invocations is_updateContext (calls (agentLoop fuel options w))
     = match updateContext options, reason res with
       | Some _, stop_condition =>
           (invocations is_llmCaller (calls (agentLoop fuel options w)) - 1)%Z
       | Some _, max_loops =>
           invocations is_llmCaller (calls (agentLoop fuel options w))
       | None, _ => 0%Z
       end
  /\ ((iterations res < counter_limit)%Z ->
      invocations is_stopCondition (calls (agentLoop fuel options w))
      = iterations res
      /\ invocations is_updateContext (calls (agentLoop fuel options w))
         = match updateContext options, reason res with
           | Some _, stop_condition => (iterations res - 1)%Z
           | Some _, max_loops => iterations res
           | None, _ => 0%Z
           end).
Proof.
  intros Hres.
  destruct (loop_run_counts (agentLoop_run fuel options w) Hres) as [Hs Hu].
  pose proof (loop_run_iterations (agentLoop_run fuel options w) Hres) as Hit.
  rewrite counter_after_zero in Hit by apply invocations_nonneg.
  split; [exact Hs | split; [exact Hu | ]]. intros Hbelow.
  assert (Hexact : invocations is_llmCaller
                               (calls (agentLoop fuel options w))
                   = iterations res)
    by (unfold counted in Hit; lia).
  split.
  - now rewrite Hs.
  - now rewrite Hu, Hexact.
Qed.

(** X4.  When [agentLoop] returns for the reason [max_loops], the counter
    has failed the test: [iterations < maxLoops] is false, so for an
    integer bound [iterations] is exactly [max 0 maxLoops]; and no
    [stopCondition] call answered [true], no call failed. *)
Theorem X4_max_loops_exit
        (fuel : nat) (options : Options) (w : World) (res : AgentLoopResult) :
  outcome (agentLoop fuel options w) = Returned res ->
  reason res = max_loops ->
  number_lt (iterations res) (maxLoops_or_default options) = false
  /\ (forall z, number_is_Z (maxLoops_or_default options) z ->
                iterations res = Z.max 0 z)
  /\ Forall (fun c => ends_run c = false) (calls (agentLoop fuel options w)).
Proof.
  intros Hres Hreason.
  destruct (loop_run_max_loops (agentLoop_run fuel options w) Hres Hreason)
    as [Hlt Hcalls].
  pose proof (loop_run_iterations (agentLoop_run fuel options w) Hres) as Hit.
  pose proof (loop_run_bound (agentLoop_run fuel options w)) as Hbound.
  pose proof (invocations_nonneg is_llmCaller
                (calls (agentLoop fuel options w))) as Hnonneg.
  rewrite counter_after_zero in Hit by exact Hnonneg.
  pose proof (@counted_tested _ _ Hnonneg Hbound) as Htested.
  rewrite <- Hit in Htested.
  assert (Hpos : (0 <= iterations res)%Z)
    by (rewrite Hit; unfold counted, counter_limit; lia).
  repeat split; [exact Hlt | | exact Hcalls].
  intros z Hz.
  pose proof (@number_lt_passes (iterations res) z _ Hz Hpos Htested) as Hle.
  rewrite number_lt_is_Z with (z := z) in Hlt by exact Hz.
  apply Z.ltb_ge in Hlt. lia.
Qed.

(** X5.  With [maxLoops: Infinity] the bound never ends the run: whenever
    [agentLoop] returns, the reason is [stop_condition]. *)
Theorem X5_Infinity_never_max_loops
        (fuel : nat) (options : Options) (w : World) (res : AgentLoopResult) :
  maxLoops options = Some Infinity ->
  outcome (agentLoop fuel options w) = Returned res ->
  reason res = stop_condition.
Proof.
  intros Hbound Hres. destruct (reason res) eqn:Hreason; [reflexivity | ].
  destruct (loop_run_max_loops (agentLoop_run fuel options w) Hres Hreason)
    as [Hlt _].
  unfold maxLoops_or_default in Hlt. rewrite Hbound in Hlt. discriminate.
Qed.

(** X6.  When a callback invocation never settles, no further callback is
    invoked and [agentLoop] stays suspended on it: it neither returns nor
    throws, however much fuel it is given. *)
Theorem X6_pending_call_suspends
        (fuel : nat) (options : Options) (w : World)
        (pre post : list call) (c : call) :
  calls (agentLoop fuel options w) = (pre ++ c :: post)%list ->
  call_pending c = true ->
  post = []
  /\ outcome (agentLoop fuel options w) = Hung
  /\ forall fuel', (fuel <= fuel')%nat ->
                   agentLoop fuel' options w = agentLoop fuel options w.
Proof.
  intros Hcalls Hc.
  assert (Hends : ends_run c = true).
  { destruct c as [? [ | | ] | ? ? [ | | ] | ? ? [ | | ]]; now cbn in *. }
  destruct (loop_run_ends (agentLoop_run fuel options w) _ _ _ Hcalls Hends)
    as [Hpost Hout].
  assert (Hhung : outcome (agentLoop fuel options w) = Hung).
  { rewrite Hout.
    destruct c as [? [ | | ] | ? ? [ | | ] | ? ? [ | | ]]; cbn in *;
      congruence. }
  repeat split; [exact Hpost | exact Hhung | ].
  intros fuel' Hle. apply loop_fuel_irrelevant; [ | exact Hle].
  unfold finished. fold (agentLoop fuel options w). now rewrite Hhung.
Qed.

(** X7.  A run that [maxLoops] did not end (the stop condition held, or a
    callback threw or never settled) is the very same run under every
    larger bound. *)
Theorem X7_larger_bound_same_run
        (fuel : nat) (options : Options) (w : World) (bound' : number) :
  (forall i, number_lt i (maxLoops_or_default options) = true ->
             number_lt i bound' = true) ->
  ended_early (agentLoop fuel options w) ->
  agentLoop fuel (with_maxLoops options (Some bound')) w
  = agentLoop fuel options w.
Proof.
  intros Hraised Hearly. unfold agentLoop in *.
  apply loop_raise_bound with (m := maxLoops_or_default options);
    [exact Hraised | exact Hearly].
Qed.

(** X8.  Resuming composes.  When a run with the integer bound [n >= 0]
    returns for the reason [max_loops], invoking [agentLoop] again from the
    context it returned, in the world it left, with the integer bound
    [k >= 0], makes the same calls and leaves the same world as a single
    invocation with the bound [n + k] does, provided [n + k <= 2^53], where
    the counter stays; that invocation completes the same way:
    same context and reason, the iterations of both added up, and the last
    response of the second if it obtained one, of the first otherwise. *)
Theorem X8_resuming_composes
        (fuel1 fuel2 : nat) (options : Options) (w : World) (n k : Z)
        (res1 : AgentLoopResult) :
  (0 <= n)%Z ->
  (0 <= k)%Z ->
  (n + k <= counter_limit)%Z ->
  outcome (agentLoop fuel1 (with_maxLoops options (Some (number_of_Z n))) w)
  = Returned res1 ->
  reason res1 = max_loops ->
  finished
    (agentLoop fuel2
       (with_initialContext (with_maxLoops options (Some (number_of_Z k)))
                            (finalContext res1))
       (world (agentLoop fuel1
                         (with_maxLoops options (Some (number_of_Z n))) w))) ->
  agentLoop (fuel1 + fuel2)
            (with_maxLoops options (Some (number_of_Z (n + k)))) w
  = {| outcome :=
         resumed res1
           (outcome
              (agentLoop fuel2
                 (with_initialContext
                    (with_maxLoops options (Some (number_of_Z k)))
                    (finalContext res1))
                 (world (agentLoop fuel1
                           (with_maxLoops options (Some (number_of_Z n)))
                           w))));
       world :=
         world
           (agentLoop fuel2
              (with_initialContext
                 (with_maxLoops options (Some (number_of_Z k)))
                 (finalContext res1))
              (world (agentLoop fuel1
                        (with_maxLoops options (Some (number_of_Z n))) w)));
       calls :=
         (calls (agentLoop fuel1
                   (with_maxLoops options (Some (number_of_Z n))) w)
          ++ calls
               (agentLoop fuel2
                  (with_initialContext
                     (with_maxLoops options (Some (number_of_Z k)))
                     (finalContext res1))
                  (world (agentLoop fuel1
                            (with_maxLoops options (Some (number_of_Z n)))
                            w))))%list |}.
Proof.
  intros Hn Hk Hlimit Hres Hreason Hfin.
  pose proof (agentLoop_run
                fuel1 (with_maxLoops options (Some (number_of_Z n))) w)
    as Hrun.
  assert (Hit : iterations res1 = n).
  { destruct (loop_run_max_loops Hrun Hres Hreason) as [Hlt _].
    pose proof (loop_run_iterations Hrun Hres) as Hcount.
    pose proof (loop_run_bound Hrun) as Hbound.
    pose proof (invocations_nonneg
                  is_llmCaller
                  (calls (agentLoop
                            fuel1
                            (with_maxLoops options (Some (number_of_Z n)))
                            w))) as Hnonneg.
    change (maxLoops_or_default
              (with_maxLoops options (Some (number_of_Z n))))
      with (number_of_Z n) in *.
    rewrite counter_after_zero in Hcount by exact Hnonneg.
    pose proof (@counted_tested _ _ Hnonneg Hbound) as Htested.
    rewrite <- Hcount in Htested.
    assert (Hpos : (0 <= iterations res1)%Z)
      by (rewrite Hcount; unfold counted, counter_limit; lia).
    pose proof (@number_lt_passes (iterations res1) n _
                                  (number_is_Z_of_Z n) Hpos Htested) as Hle.
    rewrite number_lt_is_Z with (z := n) in Hlt by apply number_is_Z_of_Z.
    apply Z.ltb_ge in Hlt. lia. }
  assert (Hshift : forall i, number_lt (iterations res1 + i)
                                       (number_of_Z (n + k))
                             = number_lt i (number_of_Z k)).
  { intros i. rewrite Hit.
    rewrite number_lt_is_Z with (z := (n + k)%Z) by apply number_is_Z_of_Z.
    rewrite number_lt_is_Z with (z := k) by apply number_is_Z_of_Z.
    destruct (Z.ltb_spec (n + i) (n + k)), (Z.ltb_spec i k);
      reflexivity || lia. }
  assert (Hfirst : (0 <= iterations res1)%Z) by lia.
  assert (Hwithin : forall i, number_lt i (number_of_Z k) = true ->
                              (iterations res1 + i < counter_limit)%Z).
  { intros i. rewrite Hit.
    rewrite number_lt_is_Z with (z := k) by apply number_is_Z_of_Z.
    rewrite Z.ltb_lt. lia. }
  assert (Hraised : forall i, number_lt i (number_of_Z n) = true ->
                              number_lt i (number_of_Z (n + k)) = true).
  { intros i.
    rewrite number_lt_is_Z with (z := n) by apply number_is_Z_of_Z.
    rewrite number_lt_is_Z with (z := (n + k)%Z) by apply number_is_Z_of_Z.
    rewrite !Z.ltb_lt. lia. }
  unfold agentLoop in *.
  cbn [with_maxLoops with_initialContext maxLoops_or_default maxLoops
       llmCaller stopCondition updateContext initialContext] in *.
  pose proof (@loop_shift _ _ _ _ (llmCaller options) (stopCondition options)
                          (updateContext options) _ _ res1 Hshift Hfirst
                          Hwithin fuel2 (finalContext res1) None 0%Z
                          (world (loop (llmCaller options)
                                       (stopCondition options)
                                       (number_of_Z n) (updateContext options)
                                       fuel1 (initialContext options) None 0
                                       w)))
    as Hsecond.
  rewrite Z.add_0_r in Hsecond.
  rewrite (@loop_extend _ _ _ _ (llmCaller options) (stopCondition options)
                        (updateContext options) _ _ Hraised fuel1
                        (initialContext options) None 0%Z w res1 Hres Hreason
                        fuel2).
  - rewrite Hsecond. reflexivity.
  - rewrite Hsecond. unfold finished in *. cbn [outcome].
    match goal with
    | |- resumed _ ?o <> _ => destruct o; [discriminate .. | now destruct Hfin]
    end.
Qed.

(** X9.  [llmCaller] is invoked at all exactly when [0 < maxLoops] holds
    (so not for a bound that is zero, negative or NaN), and the first
    invocation is made on [initialContext] in the world [agentLoop] was
    invoked in. *)
Theorem X9_first_call (fuel : nat) (options : Options) (w : World) :
  if number_lt 0 (maxLoops_or_default options)
  then exists rest,
      calls (agentLoop (S fuel) options w)
      = call_llmCaller (initialContext options)
                       (fst (llmCaller options (initialContext options) w))
        :: rest
  else calls (agentLoop (S fuel) options w) = [].
Proof.
  destruct (number_lt 0 (maxLoops_or_default options)) eqn:Hlt.
  - unfold agentLoop. cbn [loop]. rewrite Hlt.
    match goal with
    | |- exists rest, calls (bind (await ?record ?f) ?k w) = _ =>
        generalize k; intros k'
    end.
    unfold bind, await.
    destruct (llmCaller options (initialContext options) w) as [[r | e | ] w1];
      cbn; eauto.
  - now rewrite agentLoop_no_iteration.
Qed.

(** X10.  When, after [n] complete passes that did not stop, the next pass
    is allowed ([n < maxLoops]) and one of its callbacks rejects or never
    settles, [agentLoop] throws what it was rejected with, or stays
    suspended, and returns nothing: also when it is [updateContext] that
    fails on the last pass the bound allows.  [llmCaller] has then been
    invoked [n + 1] times. *)
Theorem X10_failing_pass
        (options : Options) (w : World) (n : nat)
        (context : TContext) (last : option TResponse) (w' w'' : World)
        (x : completion AgentLoopResult) :
  nonstop_iterations options n w = Some (context, last, w') ->
  number_lt (Z.of_nat n) (maxLoops_or_default options) = true ->
  failing_pass options context w' = Some (x, w'') ->
  forall fuel, (n < fuel)%nat ->
    outcome (agentLoop fuel options w) = x
    /\ world (agentLoop fuel options w) = w''
    /\ (forall res, x <> Returned res)
    /\ x <> OutOfFuel
    /\ invocations is_llmCaller (calls (agentLoop fuel options w))
       = (Z.of_nat n + 1)%Z.
Proof.
  intros Hnonstop Hlt Hfail fuel Hfuel.
  assert (Htests : forall passes,
             (0 <= passes <= Z.of_nat n)%Z ->
             number_lt (counter_after 0 passes) (maxLoops_or_default options)
             = true).
  { intros passes Hpasses. revert Hlt. apply number_lt_mono.
    pose proof (counter_after_le 0 (passes := passes)). lia. }
  pose proof (Htests (Z.of_nat n) ltac:(lia)) as Hlt'.
  destruct (@loop_nonstop _ _ _ _ _ _ (maxLoops_or_default options) _
                          _ _ _ 0%Z _ _ _ _ Hnonstop)
    with (fuel := (fuel - n)%nat) as (cs & Hrun & Hl & _).
  { destruct n; [now left | right]. apply Htests. lia. }
  replace (n + (fuel - n))%nat with fuel in Hrun by lia.
  destruct (fuel - n)%nat as [ | fuel'] eqn:Hrest; [lia | ].
  unfold agentLoop. rewrite Hrun. clear Hrun.
  cbn [prepend outcome world calls]. rewrite invocations_app, Hl.
  unfold failing_pass in Hfail.
  destruct (llmCaller options context w') as [s1 w1] eqn:Hllm.
  destruct (unfulfilled s1) eqn:Hs1.
  { erewrite loop_llmCaller_fails by eassumption.
    destruct s1; try discriminate; injection Hfail as <- <-; cbn;
      repeat split; discriminate || lia. }
  destruct s1 as [r | | ]; try discriminate.
  destruct (stopCondition options r context w1) as [s2 w2] eqn:Hstop.
  destruct (unfulfilled s2) eqn:Hs2.
  { erewrite loop_stopCondition_fails by eassumption.
    destruct s2; try discriminate; injection Hfail as <- <-; cbn;
      repeat split; discriminate || lia. }
  destruct s2 as [[ | ] | | ]; try discriminate.
  destruct (updateContext options) as [f | ] eqn:Hupd; [ | discriminate].
  destruct (f r context w2) as [s3 w3] eqn:Hf.
  destruct (unfulfilled s3) eqn:Hs3.
  { erewrite loop_updateContext_fails by (eassumption || reflexivity).
    destruct s3; try discriminate; injection Hfail as <- <-; cbn;
      repeat split; discriminate || lia. }
  destruct s3; discriminate.
Qed.

(** X11.  The context only changes through [updateContext]: a reflexive
    and transitive relation that every fulfilled [updateContext] call
    respects holds between [initialContext] and the context of every call
    made, and between [initialContext] and [finalContext]. *)
Theorem X11_context_changes_through_updateContext
        (R : TContext -> TContext -> Prop)
        (fuel : nat) (options : Options) (w : World) :
  (forall context, R context context) ->
  (forall c1 c2 c3, R c1 c2 -> R c2 c3 -> R c1 c3) ->
  (forall f, updateContext options = Some f ->
   forall response context w1 context' w2,
     f response context w1 = (Fulfilled context', w2) -> R context context') ->
  Forall (fun c => R (initialContext options) (call_context c))
         (calls (agentLoop fuel options w))
  /\ forall res, outcome (agentLoop fuel options w) = Returned res ->
                 R (initialContext options) (finalContext res).
Proof.
  intros Hrefl Htrans Hstep.
  eapply loop_run_related; [exact Hrefl | exact Htrans | | apply agentLoop_run].
  exact Hstep.
Qed.

End Extras.


(** ** The further properties on the configurations of the test suite *)

(** X2 on 'should update context between iterations'. *)
Lemma X2_witness :
  3%nat = context_after 0%nat (calls (agentLoop 4 (counting None) 0%nat)).
Proof.
  exact (@X2_finalContext_is_latest_update
           _ _ _ _ 4 (counting None) 0%nat
           {| finalContext := 3%nat; lastResponse := Some "response";
              reason := stop_condition; iterations := 4 |} eq_refl).
Defined.

(** X3 on 'should update context between iterations': four tests of the
    stop condition, three updates. *)
Lemma X3_witness :
  invocations is_stopCondition (calls (agentLoop 4 (counting None) 0%nat))
  = 4%Z
  /\ invocations is_updateContext (calls (agentLoop 4 (counting None) 0%nat))
     = (4 - 1)%Z.
Proof.
  destruct (@X3_callback_counts
              _ _ _ _ 4 (counting None) 0%nat
              {| finalContext := 3%nat; lastResponse := Some "response";
                 reason := stop_condition; iterations := 4 |} eq_refl)
    as (_ & _ & Hexact).
  apply Hexact. reflexivity.
Defined.

(** X4 with [maxLoops: 2], which the counter reaches before the stop
    condition holds. *)
Lemma X4_witness :
  number_lt 2 (number_of_Z 2) = false
  /\ (forall z, number_is_Z (number_of_Z 2) z -> 2%Z = Z.max 0 z)
  /\ Forall (fun c => ends_run c = false)
            (calls (agentLoop 2 (counting (Some (number_of_Z 2))) 0%nat)).
Proof.
  exact (@X4_max_loops_exit
           _ _ _ _ 2 (counting (Some (number_of_Z 2))) 0%nat
           {| finalContext := 2%nat; lastResponse := Some "response";
              reason := max_loops; iterations := 2 |} eq_refl eq_refl).
Defined.

(** X5 on 'should update context between iterations' with
    [maxLoops: Infinity]. *)
Lemma X5_witness :
  outcome (agentLoop 4 (counting (Some Infinity)) 0%nat)
  = Returned {| finalContext := 3%nat; lastResponse := Some "response";
                reason := stop_condition; iterations := 4 |}
  /\ reason {| finalContext := 3%nat; lastResponse := Some "response";
               reason := stop_condition; iterations := 4 |}
     = stop_condition.
Proof.
  split; [reflexivity | ].
  exact (@X5_Infinity_never_max_loops
           _ _ _ _ 4 (counting (Some Infinity)) 0%nat
           {| finalContext := 3%nat; lastResponse := Some "response";
              reason := stop_condition; iterations := 4 |} eq_refl eq_refl).
Defined.

(** X6 on an [updateContext] that never settles. *)
Lemma X6_witness :
  outcome (agentLoop 5 hanging 0%nat) = Hung
  /\ forall fuel', (5 <= fuel')%nat ->
                   agentLoop fuel' hanging 0%nat = agentLoop 5 hanging 0%nat.
Proof.
  apply (@X6_pending_call_suspends
           _ _ _ _ 5 hanging 0%nat
           [call_llmCaller 0%nat (Fulfilled "response");
            call_stopCondition "response" 0%nat (Fulfilled false)]
           [] (call_updateContext "response" 0%nat Pending)
           eq_refl eq_refl).
Defined.

(** X7 on 'should update context between iterations': the run that stops
    on iteration 4 under the default bound is the same under
    [maxLoops: Infinity]. *)
Lemma X7_witness :
  agentLoop 4 (with_maxLoops (counting None) (Some Infinity)) 0%nat
  = agentLoop 4 (counting None) 0%nat.
Proof.
  apply (@X7_larger_bound_same_run _ _ _ _ 4 (counting None) 0%nat Infinity).
  - reflexivity.
  - reflexivity.
Defined.

(** X8 on 'should update context between iterations': two iterations, then
    two more from the context [2], against four at once. *)
Lemma X8_witness :
  outcome (agentLoop (2 + 2)
                     (with_maxLoops (counting None)
                                    (Some (number_of_Z (2 + 2)))) 0%nat)
  = Returned {| finalContext := 3%nat;
                lastResponse := Some "response";
                reason := stop_condition;
                iterations := 2 + 2 |}.
Proof.
  rewrite (@X8_resuming_composes
             _ _ _ _ 2 2 (counting None) 0%nat 2%Z 2%Z
             {| finalContext := 2%nat; lastResponse := Some "response";
                reason := max_loops; iterations := 2 |}).
  - reflexivity.
  - lia.
  - lia.
  - discriminate.
  - reflexivity.
  - reflexivity.
  - discriminate.
Defined.

(** X10 on a responder whose second invocation rejects. *)
Lemma X10_witness :
  outcome (agentLoop 5 failing 0%nat) = Threw "overloaded"
  /\ world (agentLoop 5 failing 0%nat) = 2%nat
  /\ invocations is_llmCaller (calls (agentLoop 5 failing 0%nat))
     = (Z.of_nat 1 + 1)%Z.
Proof.
  destruct (@X10_failing_pass
              _ _ _ _ failing 0%nat 1 1%nat (Some "response") 1%nat 2%nat
              (Threw "overloaded") eq_refl eq_refl eq_refl 5)
    as (Hout & Hworld & _ & _ & Hcount).
  - lia.
  - exact (conj Hout (conj Hworld Hcount)).
Defined.

(** X11 on 'should update context between iterations': the counter only
    grows. *)
Lemma X11_witness :
  Forall (fun c => (0 <= call_context c)%nat)
         (calls (agentLoop 4 (counting None) 0%nat))
  /\ forall res, outcome (agentLoop 4 (counting None) 0%nat) = Returned res ->
                 (0 <= finalContext res)%nat.
Proof.
  apply (@X11_context_changes_through_updateContext
           _ _ _ _ le 4 (counting None) 0%nat).
  - intros context. apply Nat.le_refl.
  - intros c1 c2 c3. apply Nat.le_trans.
  - intros f Hf response context w1 context' w2 Hstep.
    injection Hf as <-. injection Hstep as <- _. lia.
Defined.

